(** * live-reload-server: the core of [src/server.py]

    A shallow embedding of the three components the specification calls the
    core: the HTML injection responder ([LiveReloadRequestHandler]), the
    filesystem watcher with its debounced notifier ([ReloadHandler]) and the
    broadcast over the client registry ([clients]).

    Python values are modelled as follows.
    - [str]: a list of Unicode code points ([pystr]); the methods used by the
      source ([startswith], [endswith], [in], [replace], [str] of an [int])
      are functions on such lists.
    - [bytes]: a list of octets ([pybytes]); the codec [utf-8] is written out.
    - the response a handler produces: the list of calls it makes on the
      [BaseHTTPRequestHandler] interface, in order ([http_call]).
    - the registry [clients]: a finite set of connection identities.
    - the event loop that owns the debounce timer: explicit state, time in
      milliseconds.

    The process orchestrator ([main], the argument parser, the thread start
    up) is outside the core and is not modelled. *)

From Stdlib Require Import ZArith NArith Ascii String DecimalString.
From stdpp Require Import base list gmap sets.

Set Default Proof Using "Type".
Set Warnings "-clear-no-such-hyp".

(** Boolean tests on octets and code points, as propositions. *)
Ltac bool_to_prop :=
  repeat match goal with
  | H : _ && _ = true |- _ => apply andb_true_iff in H as [? ?]
  | H : negb _ = true |- _ => apply negb_true_iff in H
  | H : _ && _ = false |- _ => apply andb_false_iff in H
  | H : (_ <? _)%N = true |- _ => apply N.ltb_lt in H
  | H : (_ <? _)%N = false |- _ => apply N.ltb_ge in H
  | H : (_ <=? _)%N = true |- _ => apply N.leb_le in H
  | H : (_ <=? _)%N = false |- _ => apply N.leb_gt in H
  | H : (_ =? _)%N = true |- _ => apply N.eqb_eq in H
  | H : (_ =? _)%N = false |- _ => apply N.eqb_neq in H
  end.

(** Linear arithmetic with division and remainder by constants. *)
Ltac div_lia := zify; Z.to_euclidean_division_equations; lia.

(** ** Python strings *)

Module PyStr.

(** A [str] is a sequence of code points. *)
Definition codepoint := N.
Definition pystr := list codepoint.

(** A literal of the source, read character by character. *)
Definition lit (s : string) : pystr := map N_of_ascii (list_ascii_of_string s).

(** [s.startswith(p)] *)
Fixpoint startswith (p s : pystr) : bool :=
  match p, s with
  | [], _ => true
  | _ :: _, [] => false
  | a :: p', b :: s' => N.eqb a b && startswith p' s'
  end.

(** [s.endswith(p)] *)
Definition endswith (p s : pystr) : bool :=
  startswith (rev p) (rev s).

(** [s.endswith((p1, ..., pn))]: true when some member of the tuple is a
    suffix. *)
Definition endswith_any (ps : list pystr) (s : pystr) : bool :=
  existsb (fun p => endswith p s) ps.

(** [sub in s] *)
Fixpoint contains (sub s : pystr) : bool :=
  startswith sub s ||
  match s with
  | [] => false
  | _ :: s' => contains sub s'
  end.

(** [s.find(sub)]: the offset of the first occurrence. *)
Fixpoint find (sub s : pystr) : option nat :=
  if startswith sub s then Some 0
  else match s with
       | [] => None
       | _ :: s' => S <$> find sub s'
       end.

(** [s.count(sub)] for a non-empty [sub]: occurrences that do not overlap,
    scanning from the left.  [skip] is the number of characters still inside
    the occurrence found last. *)
Fixpoint count_from (sub : pystr) (skip : nat) (s : pystr) : nat :=
  match s with
  | [] => 0
  | _ :: s' =>
      match skip with
      | S k => count_from sub k s'
      | O => if startswith sub s
             then S (count_from sub (length sub - 1) s')
             else count_from sub 0 s'
      end
  end.

Definition count (sub s : pystr) : nat :=
  match sub with
  | [] => S (length s)
  | _ :: _ => count_from sub 0 s
  end.

(** [s.replace(old, new)]: every occurrence of [old] that does not overlap an
    earlier one is replaced, scanning from the left; the text put in is not
    scanned again. *)
Fixpoint replace_from (old new : pystr) (skip : nat) (s : pystr) : pystr :=
  match s with
  | [] => []
  | c :: s' =>
      match skip with
      | S k => replace_from old new k s'
      | O => if startswith old s
             then new ++ replace_from old new (length old - 1) s'
             else c :: replace_from old new 0 s'
      end
  end.

Definition replace (old new s : pystr) : pystr :=
  match old with
  | [] => new ++ flat_map (fun c => c :: new) s
  | _ :: _ => replace_from old new 0 s
  end.

(** [sep.join(segs)] *)
Fixpoint join (sep : pystr) (segs : list pystr) : pystr :=
  match segs with
  | [] => []
  | s :: rest =>
      match rest with
      | [] => s
      | _ :: _ => s ++ sep ++ join sep rest
      end
  end.

(** [str(n)] for an [int]. *)
Definition str_of_int (n : Z) : pystr :=
  lit (NilZero.string_of_int (Z.to_int n)).

End PyStr.

Import PyStr.

(** ** The codec [utf-8] *)

Module Utf8.

(** A [bytes] object is a sequence of octets. *)
Definition pybytes := list N.

(** Exceptions the responder can meet, with what each one carries. *)
Inductive exn :=
| OSError (errno : Z) (filename : pystr)
| UnicodeDecodeError (start : nat)
| UnicodeEncodeError (start : nat).

(** A Unicode scalar value: a code point that is not a surrogate. *)
Definition is_scalar (c : codepoint) : bool :=
  (c <? 0xD800)%N || ((0xDFFF <? c)%N && (c <? 0x110000)%N).

(** Text made of scalar values only. *)
Definition scalars (s : pystr) : Prop := Forall (fun c => is_scalar c = true) s.

(** The octets of one code point; surrogates are refused
    ([errors='strict']). *)
Definition encode_char (c : codepoint) : option pybytes :=
  if (c <? 0x80)%N then Some [c]
  else if (c <? 0x800)%N then
    Some [0xC0 + c / 64; 0x80 + c mod 64]%N
  else if (c <? 0x10000)%N then
    if (0xD800 <=? c)%N && (c <=? 0xDFFF)%N then None
    else Some [0xE0 + c / 4096; 0x80 + (c / 64) mod 64; 0x80 + c mod 64]%N
  else if (c <? 0x110000)%N then
    Some [0xF0 + c / 262144; 0x80 + (c / 4096) mod 64;
          0x80 + (c / 64) mod 64; 0x80 + c mod 64]%N
  else None.

(** [s.encode('utf-8')], [pos] being the offset of the head of [s]. *)
Fixpoint encode_from (pos : nat) (s : pystr) : exn + pybytes :=
  match s with
  | [] => inr []
  | c :: s' =>
      match encode_char c with
      | None => inl (UnicodeEncodeError pos)
      | Some b =>
          match encode_from (S pos) s' with
          | inl e => inl e
          | inr r => inr (b ++ r)
          end
      end
  end.

Definition encode (s : pystr) : exn + pybytes := encode_from 0 s.

(** The number of octets a scalar value takes. *)
Definition width (c : codepoint) : nat :=
  if (c <? 0x80)%N then 1
  else if (c <? 0x800)%N then 2
  else if (c <? 0x10000)%N then 3
  else 4.

Definition byte_length (s : pystr) : nat :=
  foldr (fun c n => width c + n) 0 s.

(** A continuation octet, [10xxxxxx]. *)
Definition is_cont (b : N) : bool := (0x80 <=? b)%N && (b <=? 0xBF)%N.

(** [data.decode('utf-8')], strict: overlong forms, surrogates, values above
    U+10FFFF, stray continuation octets and truncated sequences are refused.
    [pos] is the offset of the head of [data]. *)
Fixpoint decode_from (pos : nat) (data : pybytes) : exn + pystr :=
  match data with
  | [] => inr []
  | b0 :: r0 =>
      if (b0 <? 0x80)%N then
        match decode_from (S pos) r0 with
        | inl e => inl e
        | inr s => inr (b0 :: s)
        end
      else if (b0 <? 0xC2)%N then inl (UnicodeDecodeError pos)
      else if (b0 <? 0xE0)%N then
        match r0 with
        | b1 :: r1 =>
            if is_cont b1 then
              match decode_from (2 + pos) r1 with
              | inl e => inl e
              | inr s => inr (((b0 - 0xC0) * 64 + (b1 - 0x80))%N :: s)
              end
            else inl (UnicodeDecodeError pos)
        | _ => inl (UnicodeDecodeError pos)
        end
      else if (b0 <? 0xF0)%N then
        match r0 with
        | b1 :: b2 :: r2 =>
            if is_cont b1 && is_cont b2
               && negb ((b0 =? 0xE0)%N && (b1 <? 0xA0)%N)
               && negb ((b0 =? 0xED)%N && (0x9F <? b1)%N)
            then
              match decode_from (3 + pos) r2 with
              | inl e => inl e
              | inr s =>
                  inr (((b0 - 0xE0) * 4096 + (b1 - 0x80) * 64
                        + (b2 - 0x80))%N :: s)
              end
            else inl (UnicodeDecodeError pos)
        | _ => inl (UnicodeDecodeError pos)
        end
      else if (b0 <? 0xF5)%N then
        match r0 with
        | b1 :: b2 :: b3 :: r3 =>
            if is_cont b1 && is_cont b2 && is_cont b3
               && negb ((b0 =? 0xF0)%N && (b1 <? 0x90)%N)
               && negb ((b0 =? 0xF4)%N && (0x8F <? b1)%N)
            then
              match decode_from (4 + pos) r3 with
              | inl e => inl e
              | inr s =>
                  inr (((b0 - 0xF0) * 262144 + (b1 - 0x80) * 4096
                        + (b2 - 0x80) * 64 + (b3 - 0x80))%N :: s)
              end
            else inl (UnicodeDecodeError pos)
        | _ => inl (UnicodeDecodeError pos)
        end
      else inl (UnicodeDecodeError pos)
  end.

Definition decode (data : pybytes) : exn + pystr := decode_from 0 data.

(** Reading in text mode with [newline=None]: the line ends CR LF and CR
    become LF. *)
Fixpoint universal_newlines (s : pystr) : pystr :=
  match s with
  | [] => []
  | c :: s' =>
      if (c =? 13)%N then
        10%N :: match s' with
                | [] => []
                | d :: s'' =>
                    if (d =? 10)%N then universal_newlines s''
                    else universal_newlines s'
                end
      else c :: universal_newlines s'
  end.

End Utf8.

Import Utf8.

(** ** The HTML injection responder ([LiveReloadRequestHandler]) *)

Module Responder.

(** [send_header] formats its value with [%s]: the source passes a [str] for
    the content type and an [int] for the content length. *)
Inductive header_value :=
| HStr (s : pystr)
| HInt (n : Z).

(** The calls a handler makes on the [BaseHTTPRequestHandler] interface it
    inherits. [super_do_GET] is [SimpleHTTPRequestHandler.do_GET]. The
    connection is taken to accept what is written to it: a client that has
    gone away, on which [end_headers] and [wfile.write] raise, is outside the
    model. *)
Inductive http_call :=
| send_response (code : Z)
| send_header (keyword : pystr) (value : header_value)
| end_headers
| wfile_write (data : pybytes)
| send_error (code : Z) (message : pystr)
| super_do_GET.

(** A computation of the handler: the calls made so far, and either the
    exception that ended it or its value. *)
Definition M (A : Type) : Type := (list http_call * (exn + A))%type.

Definition ret {A} (a : A) : M A := ([], inr a).

Definition raise {A} (e : exn) : M A := ([], inl e).

Definition bind {A B} (m : M A) (k : A -> M B) : M B :=
  match m with
  | (out, inl e) => (out, inl e)
  | (out, inr a) => let '(out', r) := k a in (out ++ out', r)
  end.

Definition call (c : http_call) : M unit := ([c], inr tt).

(** A value or the exception raised while computing it. *)
Definition lift {A} (r : exn + A) : M A := ([], r).

(** [try: body except Exception as e: handler(e)] *)
Definition try_except {A} (body : M A) (handler : exn -> M A) : M A :=
  match body with
  | (out, inl e) => let '(out', r) := handler e in (out ++ out', r)
  | (out, inr a) => (out, inr a)
  end.

#[export] Instance M_ret : MRet M := @ret.
#[export] Instance M_bind : MBind M := fun A B k m => bind m k.

(** The offset of the first character the codec [latin-1] cannot encode:
    [s.encode('latin-1', 'strict')] raises [UnicodeEncodeError] there. *)
Fixpoint latin_1_error (s : pystr) : option nat :=
  match s with
  | [] => None
  | c :: s' => if (c <? 256)%N then S <$> latin_1_error s' else Some 0
  end.

(** The status line of [send_response_only]:
    ["%s %d %s\r\n" % (self.protocol_version, code, message)]. *)
Definition status_line (code : Z) (message : pystr) : pystr :=
  lit "HTTP/1.0 " ++ str_of_int code ++ lit " " ++ message ++ [13; 10]%N.

(** [self.send_error(code, message)]. The first thing the method does for the
    client is to encode the status line with [latin-1], strict
    ([send_response], [send_response_only]): when the message holds a
    character above U+00FF the call raises and nothing has been sent. *)
Definition call_send_error (code : Z) (message : pystr) : M unit :=
  match latin_1_error (status_line code message) with
  | None => call (send_error code message)
  | Some pos => ([send_error code message], inl (UnicodeEncodeError pos))
  end.

(** What [open] finds at a path. *)
Inductive node :=
| Missing
| Denied (errno : Z)
| Regular (data : pybytes).

Definition disk := pystr -> node.

(** [os.path.exists(path)] *)
Definition exists_ (fs : disk) (path : pystr) : bool :=
  match fs path with
  | Missing => false
  | _ => true
  end.

(** [with open(path, 'r', encoding='utf-8') as f: content = f.read()] *)
Definition read_text (fs : disk) (path : pystr) : exn + pystr :=
  match fs path with
  | Missing => inl (OSError 2 path)
  | Denied errno => inl (OSError errno path)
  | Regular data =>
      match decode data with
      | inl e => inl e
      | inr s => inr (universal_newlines s)
      end
  end.

Definition LIVE_RELOAD_SCRIPT : pystr := lit "
<script>
(function() {
    const ws = new WebSocket('ws://localhost:PORT_PLACEHOLDER');
    ws.onopen = () => console.log('[Live Reload] Connected');
    ws.onmessage = () => {
        console.log('[Live Reload] Reloading...');
        window.location.reload();
    };
    ws.onclose = () => console.log('[Live Reload] Disconnected');
})();
</script>
".

(** [self.ws_port]: [None] unless the server passes a port. *)
Definition str_port (ws_port : option Z) : pystr :=
  match ws_port with
  | None => lit "None"
  | Some n => str_of_int n
  end.

(** [LIVE_RELOAD_SCRIPT.replace('PORT_PLACEHOLDER', str(self.ws_port))] *)
Definition script (ws_port : option Z) : pystr :=
  replace (lit "PORT_PLACEHOLDER") (str_port ws_port) LIVE_RELOAD_SCRIPT.

(** The rewriting of the document, lines 109 to 115. *)
Definition inject (script content : pystr) : pystr :=
  if contains (lit "</body>") content then
    replace (lit "</body>") (script ++ lit "</body>") content
  else if contains (lit "</head>") content then
    replace (lit "</head>") (script ++ lit "</head>") content
  else
    content ++ script.

Section Handler.

(** [str(e)], the description of an exception. *)
Variable str_exn : exn -> pystr.

(** [self.translate_path], from the request path to a path on disk. *)
Variable translate_path : pystr -> pystr.

Variable ws_port : option Z.

Definition _serve_html_with_reload (fs : disk) (path : pystr) : M unit :=
  try_except
    (content ← lift (read_text fs path);
     let content := inject (script ws_port) content in
     call (send_response 200);;
     call (send_header (lit "Content-Type")
             (HStr (lit "text/html; charset=utf-8")));;
     encoded ← lift (encode content);
     call (send_header (lit "Content-Length")
             (HInt (Z.of_nat (length encoded))));;
     call end_headers;;
     encoded ← lift (encode content);
     call (wfile_write encoded))
    (fun e => call_send_error 500 (str_exn e)).

Definition do_GET (fs : disk) (request_path : pystr) : M unit :=
  let path := translate_path request_path in
  if endswith (lit ".html") path || endswith (lit ".htm") path then
    if exists_ fs path then _serve_html_with_reload fs path
    else call super_do_GET
  else call super_do_GET.

(** [CustomHTTPServer.finish_request]: a handler of its own for every
    request, holding the port of the server. The request comes with the disk
    as it is when the request is served. *)
Definition finish_request (request : disk * pystr) : M unit :=
  do_GET (fst request) (snd request).

(** The requests of a run of the server, served one after the other. *)
Definition serve (requests : list (disk * pystr)) : list (M unit) :=
  map finish_request requests.

End Handler.

End Responder.

Import Responder.

(** ** The watcher, the debounced notifier and the broadcast
       ([ReloadHandler], [clients]) *)

Module Notifier.

(** The identity of a websocket connection. *)
Definition conn := nat.

(** *** The broadcast *)

(** What the connection handler of [websocket_server] does to the registry:
    [clients.add(websocket)] on connect, [clients.discard(websocket)] when
    the peer has closed. *)
Inductive registry_action :=
| add (ws : conn)
| discard (ws : conn).

Definition registry_apply (cl : gset conn) (a : registry_action) : gset conn :=
  match a with
  | add ws => {[ws]} ∪ cl
  | discard ws => cl ∖ {[ws]}
  end.

(** An action that changes the table of the set. *)
Definition effective (cl : gset conn) (a : registry_action) : bool :=
  match a with
  | add ws => bool_decide (ws ∉ cl)
  | discard ws => bool_decide (ws ∈ cl)
  end.

(** The registry after a run of actions, and whether its table was touched. *)
Definition registry_run (st : gset conn * bool) (acts : list registry_action)
  : gset conn * bool :=
  foldl (fun st a => (registry_apply st.1 a, st.2 || effective st.1 a)) st acts.

(** How the coroutine [_notify_clients] ends. [RuntimeError] is the error of
    the set iterator, "Set changed size during iteration". When the table was
    touched and has its old size again, which entries the iterator still
    visits depends on the hashes: [Unspecified]. *)
Inductive outcome :=
| Returned
| RuntimeError
| Unspecified.

(** One call of [ws.send]: the connection, the message and whether the send
    returned (rather than raised). *)
Definition send_record := (conn * pystr * bool)%type.

(** The send the loop body makes for a connection. *)
Definition sent_to (send_ok : conn -> bool) (ws : conn) : send_record :=
  (ws, lit "reload", send_ok ws).

Record pass := Pass {
  pass_outcome : outcome;
  pass_clients : gset conn;
  pass_sends : list send_record
}.

(** [for ws in clients: try: await ws.send("reload") except: disconnected.add(ws)]
    followed by [clients.difference_update(disconnected)].

    [todo] is what the iterator has yet to visit and [used] the size of the
    set when the iterator was made; the iterator compares the size of the set
    with [used] each time it is asked for an element. [during] lists, for
    each awaited send, what other tasks do to the registry meanwhile. *)
Fixpoint for_ws (send_ok : conn -> bool) (todo : list conn) (used : nat)
    (touched : bool) (during : list (list registry_action))
    (cl disconnected : gset conn) (sends : list send_record) {struct todo}
  : pass :=
  if negb (size cl =? used) then Pass RuntimeError cl sends
  else if touched then Pass Unspecified cl sends
  else
    match todo with
    | [] => Pass Returned (cl ∖ disconnected) sends
    | ws :: rest =>
        let ok := send_ok ws in
        let disconnected' :=
          if ok then disconnected else {[ws]} ∪ disconnected in
        let st := registry_run (cl, false) (hd [] during) in
        for_ws send_ok rest used st.2 (tl during) st.1 disconnected'
          (sends ++ [(ws, lit "reload", ok)])
    end.

(** The body of [_notify_clients] once [asyncio.sleep(0.1)] has returned. *)
Definition _notify_clients (send_ok : conn -> bool)
    (during : list (list registry_action)) (cl : gset conn) : pass :=
  if bool_decide (cl = ∅) then Pass Returned cl []
  else for_ws send_ok (elements cl) (size cl) false during cl ∅ [].

(** *** The watcher *)

Inductive event_type :=
| EVENT_TYPE_MOVED
| EVENT_TYPE_DELETED
| EVENT_TYPE_CREATED
| EVENT_TYPE_MODIFIED.

Record FileSystemEvent := Event {
  ev_type : event_type;
  is_directory : bool;
  src_path : pystr
}.

(** The tuple given to [endswith] in [on_modified] and [on_created]. *)
Definition extensions : list pystr :=
  [lit ".html"; lit ".htm"; lit ".css"; lit ".js"; lit ".json"].

(** *** The debounce timer and the loop that owns it *)

(** The delay of [asyncio.sleep(0.1)], in milliseconds. *)
Definition debounce_ms : nat := 100.

(** A future made by [asyncio.run_coroutine_threadsafe] for the coroutine
    [_notify_clients()]: the coroutine sleeps until [wake]. *)
Record task := Task {
  wake : nat;
  cancelled : bool;
  finished : bool
}.

Definition live (t : task) : bool := negb (cancelled t) && negb (finished t).

(** [future.cancel()]: nothing happens to a future that is done. *)
Definition cancel (t : task) : task :=
  if finished t then t else Task (wake t) true (finished t).

(** What an observer of the loop sees: a coroutine resuming after its sleep,
    and each call of [send]. *)
Inductive obs :=
| Woke (t : nat)
| Sent (t : nat) (s : send_record).

Record world := World {
  now : nat;
  tasks : list task;
  debounce_timer : option nat;
  clients : gset conn;
  log : list obs
}.

Definition _trigger_reload (w : world) : world :=
  let tasks1 :=
    match debounce_timer w with
    | Some i => alter cancel i (tasks w)
    | None => tasks w
    end in
  World (now w)
        (tasks1 ++ [Task (now w + debounce_ms) false false])
        (Some (length tasks1))
        (clients w)
        (log w).

Definition on_modified (event : FileSystemEvent) (w : world) : world :=
  if is_directory event then w
  else if endswith_any extensions (src_path event) then _trigger_reload w
  else w.

Definition on_created (event : FileSystemEvent) (w : world) : world :=
  if is_directory event then w
  else if endswith_any extensions (src_path event) then _trigger_reload w
  else w.

(** [FileSystemEventHandler.dispatch]: the methods [ReloadHandler] does not
    override do nothing. *)
Definition dispatch (event : FileSystemEvent) (w : world) : world :=
  match ev_type event with
  | EVENT_TYPE_MODIFIED => on_modified event w
  | EVENT_TYPE_CREATED => on_created event w
  | EVENT_TYPE_MOVED | EVENT_TYPE_DELETED => w
  end.

Section Loop.

(** Whether a send to a connection at a given time returns. *)
Variable send_ok : nat -> conn -> bool.

(** The loop at time [t]: every coroutine whose sleep is over and that was
    not cancelled resumes and runs to its end. Within the loop a pass is one
    step: what the connection handler does to the registry are steps of
    their own ([Connect], [Disconnect]). A pass takes no time here: a
    [cancel] that reaches a coroutine while one of its sends is awaited is
    outside the model. *)
Fixpoint run_due (t : nat) (ts : list task) (cl : gset conn) (l : list obs)
  : list task * gset conn * list obs :=
  match ts with
  | [] => ([], cl, l)
  | k :: ts' =>
      if live k && (wake k <=? t) then
        let r := _notify_clients (send_ok t) [] cl in
        let '(ts'', cl', l') :=
          run_due t ts' (pass_clients r)
            (l ++ Woke t :: map (Sent t) (pass_sends r)) in
        (Task (wake k) (cancelled k) true :: ts'', cl', l')
      else
        let '(ts'', cl', l') := run_due t ts' cl l in
        (k :: ts'', cl', l')
  end.

(** What can happen: a millisecond passes, the observer thread delivers a
    filesystem event, a browser connects, a peer closes. *)
Inductive step :=
| Tick
| Fs (event : FileSystemEvent)
| Connect (ws : conn)
| Disconnect (ws : conn).

Definition do_step (w : world) (s : step) : world :=
  match s with
  | Tick =>
      let '(ts, cl, l) := run_due (S (now w)) (tasks w) (clients w) (log w) in
      World (S (now w)) ts (debounce_timer w) cl l
  | Fs event => dispatch event w
  | Connect ws =>
      World (now w) (tasks w) (debounce_timer w)
            (registry_apply (clients w) (add ws)) (log w)
  | Disconnect ws =>
      World (now w) (tasks w) (debounce_timer w)
            (registry_apply (clients w) (discard ws)) (log w)
  end.

Definition run (w : world) (steps : list step) : world :=
  foldl do_step w steps.

End Loop.

(** A [ReloadHandler] just made, on a loop with nothing scheduled. *)
Definition initial : world := World 0 [] None ∅ [].

(** A filesystem event the watcher forwards. *)
Definition qualifying (event : FileSystemEvent) : bool :=
  match ev_type event with
  | EVENT_TYPE_MODIFIED | EVENT_TYPE_CREATED =>
      negb (is_directory event) && endswith_any extensions (src_path event)
  | _ => false
  end.

(** The times at which a broadcast started. *)
Definition broadcasts (l : list obs) : list nat :=
  omap (fun o => match o with Woke t => Some t | Sent _ _ => None end) l.

(** The messages sent. *)
Definition messages (l : list obs) : list pystr :=
  omap (fun o => match o with Woke _ => None | Sent _ s => Some s.1.2 end) l.


(** A step that is no delivery of a qualifying event. *)
Definition calm (s : step) : bool :=
  match s with
  | Fs event => negb (qualifying event)
  | _ => true
  end.

(** A burst: qualifying events, each followed by what happens before the
    next one. *)
Definition burst (evs : list (FileSystemEvent * list step)) : list step :=
  flat_map (fun p => Fs p.1 :: p.2) evs.

(** A future that will not run (any more). *)
Definition settled (k : task) : Prop := live k = false.

(** No future is pending, except perhaps the one [debounce_timer] holds. *)
Definition tame (w : world) : Prop :=
  forall i k, tasks w !! i = Some k -> live k = true -> debounce_timer w = Some i.

(** The future [debounce_timer] holds is pending and wakes at [T], later
    than now; no other future is pending. *)
Definition armed (T : nat) (w : world) : Prop :=
  now w < T /\
  exists pre post,
    tasks w = pre ++ Task T false false :: post
    /\ debounce_timer w = Some (length pre)
    /\ Forall settled pre /\ Forall settled post.


End Notifier.

Import Notifier.

(** ** Notions the properties are stated with *)

Module Derived.

(** The octets of a code point that can be encoded, none otherwise. *)
Definition octets_of (c : codepoint) : pybytes :=
  match encode_char c with
  | Some b => b
  | None => []
  end.

(** The encoding of a text of scalar values, one character after the
    other. *)
Definition octets (s : pystr) : pybytes := flat_map octets_of s.

(** The template of the snippet up to the placeholder, and after it. *)
Definition script_prefix : pystr := lit "
<script>
(function() {
    const ws = new WebSocket('ws://localhost:".

Definition script_suffix : pystr := lit "');
    ws.onopen = () => console.log('[Live Reload] Connected');
    ws.onmessage = () => {
        console.log('[Live Reload] Reloading...');
        window.location.reload();
    };
    ws.onclose = () => console.log('[Live Reload] Disconnected');
})();
</script>
".

(** The five calls of an answer with a body. *)
Definition ok_response (body : pybytes) : list http_call :=
  [send_response 200;
   send_header (lit "Content-Type") (HStr (lit "text/html; charset=utf-8"));
   send_header (lit "Content-Length") (HInt (Z.of_nat (length body)));
   end_headers;
   wfile_write body].

(** How many copies of the snippet the rewriting puts in. *)
Definition insertions (content : pystr) : nat :=
  if contains (lit "</body>") content then count (lit "</body>") content
  else if contains (lit "</head>") content then count (lit "</head>") content
  else 1.

(** What the loop makes of a future at time [t]: one that is pending and due
    has run and is done, any other is as it was. *)
Definition resumed (t : nat) (k : task) : task :=
  if live k && (wake k <=? t) then Task (wake k) (cancelled k) true else k.

(** The futures that are pending. *)
Definition pending (ts : list task) : list task :=
  filter (fun k => live k = true) ts.

(** The qualifying events among the steps of a run. *)
Definition deliveries (steps : list step) : nat :=
  length (filter (fun s => calm s = false) steps).

(** A character [str] of an [int] can hold: a digit or the sign. *)
Definition is_int_char (c : codepoint) : bool :=
  (c =? 45)%N || ((48 <=? c)%N && (c <=? 57)%N).

End Derived.

Import Derived.

(** ** Sample inputs *)

Module Samples.

(** [str(e)] as a stand-in: the kind of the exception. *)
Definition describe (e : exn) : pystr :=
  match e with
  | OSError _ _ => lit "OSError"
  | UnicodeDecodeError _ => lit "UnicodeDecodeError"
  | UnicodeEncodeError _ => lit "UnicodeEncodeError"
  end.

(** [str(e)] of an [OSError] ends with the name of the file, in quotes. *)
Definition describe_named (e : exn) : pystr :=
  match e with
  | OSError _ filename => lit "Permission denied: '" ++ filename ++ lit "'"
  | _ => describe e
  end.

(** A served root with one page, named with U+65E5, that may not be read. *)
Definition locked : disk := fun path =>
  if bool_decide (path = [0x65E5]%N ++ lit ".html") then Denied 13
  else Missing.

(** A document with a character of two octets (U+00E9), as it is on disk. *)
Definition page_bytes : pybytes :=
  lit "<html><head></head><body>caf" ++ [0xC3; 0xA9]%N ++ lit "</body></html>".

Definition page_text : pystr :=
  lit "<html><head></head><body>caf" ++ [0xE9]%N ++ lit "</body></html>".

(** A served root with a page, a file that is not UTF-8 and a file that may
    not be read. *)
Definition root : disk := fun path =>
  if bool_decide (path = lit "index.html") then Regular page_bytes
  else if bool_decide (path = lit "broken.html") then Regular [0xFF]%N
  else if bool_decide (path = lit "secret.html") then Denied 13
  else Missing.

(** A fragment with a head and no body, and a file with DOS line ends. *)
Definition fragment : pystr := lit "<head><title>t</title></head><p>x</p>".

Definition dos_bytes : pybytes := lit "<p>a</p>" ++ [13; 10]%N ++ lit "<p>b</p>".

Definition dos_root : disk := fun path =>
  if bool_decide (path = lit "dos.html") then Regular dos_bytes else Missing.

(** Two saves of an editor, and a file the watcher does not care for. *)
Definition edit : FileSystemEvent :=
  Event EVENT_TYPE_MODIFIED false (lit "site/index.html").

Definition save : FileSystemEvent :=
  Event EVENT_TYPE_CREATED false (lit "site/style.css").

Definition swap : FileSystemEvent :=
  Event EVENT_TYPE_MODIFIED false (lit "site/.index.html.swp").

(** Every send returns, except those to connection 1. *)
Definition flaky (t : nat) (ws : conn) : bool := negb (ws =? 1).

End Samples.

(** * Properties *)

(** ** The model agrees with Python on sample values *)

Example replace_samples :
  replace (lit "ab") (lit "X") (lit "abcabab-a") = lit "XcXX-a"
  /\ replace (lit "aa") (lit "b") (lit "aaa") = lit "ba"
  /\ replace (lit "") (lit "-") (lit "ab") = lit "-a-b-"
  /\ count (lit "aa") (lit "aaaa-aaa") = 3
  /\ find (lit "b") (lit "aab") = Some 2
  /\ join (lit ", ") [lit "a"; lit "b"; lit ""] = lit "a, b, ".
Proof. vm_compute. repeat split. Qed.

Example str_samples :
  str_of_int 0 = lit "0" /\ str_of_int (-12) = lit "-12"
  /\ str_of_int 8001 = lit "8001"
  /\ endswith_any [lit ".html"; lit ".js"] (lit "a/b.js") = true
  /\ endswith (lit ".js") (lit "js") = false.
Proof. vm_compute. repeat split. Qed.

Example utf8_samples :
  encode [0x41; 0xE9; 0x20AC; 0x1F600]%N
  = inr [0x41; 0xC3; 0xA9; 0xE2; 0x82; 0xAC; 0xF0; 0x9F; 0x98; 0x80]%N
  /\ decode [0x41; 0xC3; 0xA9; 0xE2; 0x82; 0xAC; 0xF0; 0x9F; 0x98; 0x80]%N
     = inr [0x41; 0xE9; 0x20AC; 0x1F600]%N
  /\ decode [0x41; 0xC0; 0x80]%N = inl (UnicodeDecodeError 1)
  /\ decode [0xED; 0xA0; 0x80]%N = inl (UnicodeDecodeError 0)
  /\ encode [0x41; 0xD800]%N = inl (UnicodeEncodeError 1)
  /\ universal_newlines [13; 10; 65; 13; 66; 10]%N = [10; 65; 10; 66; 10]%N.
Proof. vm_compute. repeat split. Qed.

Example script_samples :
  length LIVE_RELOAD_SCRIPT = 352
  /\ count (lit "PORT_PLACEHOLDER") LIVE_RELOAD_SCRIPT = 1
  /\ contains (lit "localhost:8001'") (script (Some 8001%Z)) = true.
Proof. vm_compute. repeat split. Qed.

(** ** [str.replace], [in] and [find] *)

Section Replace.

Implicit Types (old new s p r : pystr) (c : codepoint).

Lemma length_tail_of c p : length (c :: p) - 1 = length p.
Proof. cbn. lia. Qed.

Lemma startswith_app p r : startswith p (p ++ r) = true.
Proof.
  induction p as [|a p IH]; [done|].
  cbn. by rewrite N.eqb_refl, IH.
Qed.

Lemma startswith_split p s :
  startswith p s = true -> s = p ++ drop (length p) s.
Proof.
  revert s. induction p as [|a p IH]; intros [|b s]; cbn; try done.
  intros [Hab Hps]%andb_true_iff. apply N.eqb_eq in Hab as ->.
  f_equal. by apply IH.
Qed.

Lemma replace_from_skip old new p r :
  replace_from old new (length p) (p ++ r) = replace_from old new 0 r.
Proof.
  induction p as [|a p IH]; cbn; [|done].
  by destruct r.
Qed.

Lemma count_from_skip old p r :
  count_from old (length p) (p ++ r) = count_from old 0 r.
Proof.
  induction p as [|a p IH]; cbn; [|done].
  by destruct r.
Qed.

Lemma replace_nil old new : replace_from old new 0 [] = [].
Proof. done. Qed.

(** At an occurrence: [new] is put out and the scan resumes after it. *)
Lemma replace_occ old new r :
  old <> [] ->
  replace_from old new 0 (old ++ r) = new ++ replace_from old new 0 r.
Proof.
  destruct old as [|a old]; [done|]. intros _.
  pose proof (startswith_app (a :: old) r) as Hsw.
  change ((a :: old) ++ r) with (a :: (old ++ r)) in *.
  cbn [replace_from]. rewrite Hsw, length_tail_of.
  by rewrite replace_from_skip.
Qed.

(** Elsewhere: the character is kept. *)
Lemma replace_miss old new c s :
  startswith old (c :: s) = false ->
  replace_from old new 0 (c :: s) = c :: replace_from old new 0 s.
Proof. intros H. cbn [replace_from]. by rewrite H. Qed.

(** A string is empty, starts with an occurrence of [old], or starts with a
    character that opens none. *)
Lemma occurrence_ind old (P : pystr -> Prop) :
  old <> [] ->
  P [] ->
  (forall r, P r -> P (old ++ r)) ->
  (forall c s, startswith old (c :: s) = false -> P s -> P (c :: s)) ->
  forall s, P s.
Proof.
  intros Hne Hnil Hocc Hmiss s.
  remember (length s) as n eqn:Hn. revert s Hn.
  induction n as [n IH] using lt_wf_ind. intros s ->.
  destruct s as [|c s]; [done|].
  destruct (startswith old (c :: s)) eqn:Hsw.
  - rewrite (startswith_split _ _ Hsw). apply Hocc.
    apply (IH (length (drop (length old) (c :: s)))); [|done].
    rewrite length_drop. destruct old; [done|]. cbn. lia.
  - apply Hmiss; [done|]. apply (IH (length s)); [cbn; lia|done].
Qed.

Lemma contains_false_miss old c s :
  contains old (c :: s) = false ->
  startswith old (c :: s) = false /\ contains old s = false.
Proof. cbn [contains]. by intros ?%orb_false_iff. Qed.

(** A string without an occurrence is left as it is. *)
Lemma replace_absent old new s :
  old <> [] -> contains old s = false -> replace old new s = s.
Proof.
  intros Hne. destruct old as [|a old]; [done|]. unfold replace.
  induction s as [|c s IH]; [done|].
  intros [Hsw Hc]%contains_false_miss.
  rewrite replace_miss by done. f_equal. by apply IH.
Qed.

Lemma find_contains old s i : find old s = Some i -> contains old s = true.
Proof.
  revert i. induction s as [|c s IH]; intros i; cbn.
  - by destruct (startswith old []).
  - destruct (startswith old (c :: s)); [done|]. cbn.
    destruct (find old s) eqn:Hf; [|done]. intros _. by eapply IH.
Qed.

(** The first replacement is made at the first occurrence, and the rest of
    the string is treated alike. *)
Lemma replace_first old new s i :
  old <> [] ->
  find old s = Some i ->
  replace old new s
  = take i s ++ new ++ replace old new (drop (i + length old) s).
Proof.
  intros Hne. destruct old as [|a old]; [done|]. unfold replace.
  revert i. induction s as [|c s IH]; intros i; [done|].
  cbn [find]. destruct (startswith (a :: old) (c :: s)) eqn:Hsw.
  - intros [= <-]. rewrite (startswith_split _ _ Hsw) at 1.
    by rewrite replace_occ.
  - destruct (find (a :: old) s) as [j|] eqn:Hf; [|done].
    intros [= <-]. rewrite replace_miss by done.
    cbn [take drop Nat.add app]. f_equal. by apply IH.
Qed.

(** What [replace] does when an insertion is meant: the string is cut before
    each occurrence of [old], and the pieces are joined with the text put
    before [old]. *)
Lemma replace_insert old ins s :
  old <> [] ->
  exists segs,
    s = concat segs
    /\ replace old (ins ++ old) s = join ins segs
    /\ length segs = S (count old s).
Proof.
  intros Hne.
  assert (Hj : forall x s0 tl, join ins ((x ++ s0) :: tl) = x ++ join ins (s0 :: tl)).
  { intros x s0 [|s1 tl]; cbn; [done|]. by rewrite <- app_assoc. }
  destruct old as [|a old]; [done|]. unfold replace, count.
  pattern s. apply (occurrence_ind (a :: old)); [done| | |]; clear s.
  - exists [[]]. done.
  - intros r IH. destruct IH as ([|s0 tl] & Hs & Hr & Hl); [done|].
    exists ([] :: ((a :: old) ++ s0) :: tl). split_and!.
    + cbn [concat app]. rewrite Hs. cbn [concat]. by rewrite <- app_assoc.
    + rewrite replace_occ by done. rewrite Hr.
      change (join ins ([] :: ((a :: old) ++ s0) :: tl))
        with ([] ++ ins ++ join ins (((a :: old) ++ s0) :: tl)).
      rewrite Hj. cbn [app]. by rewrite <- !app_assoc.
    + cbn [length] in *. rewrite Hl. f_equal.
      pose proof (startswith_app (a :: old) r) as Hsw.
      change ((a :: old) ++ r) with (a :: (old ++ r)) in *.
      cbn [count_from]. rewrite Hsw, length_tail_of.
      f_equal. symmetry. apply count_from_skip.
  - intros c s Hsw IH. destruct IH as ([|s0 tl] & Hs & Hr & Hl); [done|].
    exists ((c :: s0) :: tl). split_and!.
    + cbn [concat]. rewrite Hs. done.
    + rewrite replace_miss by done. rewrite Hr.
      change (c :: s0) with ([c] ++ s0). by rewrite Hj.
    + cbn [length] in *. rewrite Hl. cbn [count_from]. by rewrite Hsw.
Qed.

End Replace.

(** ** The injected document *)

Section Injection.

Implicit Types (content snippet tag : pystr) (ws_port : option Z).

Lemma find_occurrence tag s i :
  find tag s = Some i -> drop i s = tag ++ drop (i + length tag) s.
Proof.
  revert i. induction s as [|c s IH]; intros i; cbn [find].
  - destruct (startswith tag []) eqn:Hsw; [|done].
    intros [= <-]. by apply startswith_split.
  - destruct (startswith tag (c :: s)) eqn:Hsw.
    + intros [= <-]. by apply startswith_split.
    + destruct (find tag s) as [j|] eqn:Hf; [|done].
      intros [= <-]. cbn [drop Nat.add]. by apply IH.
Qed.

(** With a [</body>] in the document the first copy of the snippet stands
    immediately before the first [</body>]; what follows that tag is treated
    in the same way. *)
Lemma inject_body snippet content i :
  find (lit "</body>") content = Some i ->
  inject snippet content
  = take i content ++ snippet ++ lit "</body>"
    ++ replace (lit "</body>") (snippet ++ lit "</body>")
         (drop (i + 7) content).
Proof.
  intros Hf. unfold inject. rewrite (find_contains _ _ _ Hf).
  rewrite (replace_first _ _ _ i) by done.
  by rewrite <- app_assoc.
Qed.

(** X1: with a single [</body>] the snippet is put in once, before it. *)
Lemma inject_body_once snippet content i :
  find (lit "</body>") content = Some i ->
  contains (lit "</body>") (drop (i + 7) content) = false ->
  inject snippet content = take i content ++ snippet ++ drop i content.
Proof.
  intros Hf Hc. rewrite (inject_body _ _ i) by done.
  rewrite replace_absent by done.
  by rewrite (find_occurrence _ _ _ Hf).
Qed.

Lemma inject_head snippet content i :
  contains (lit "</body>") content = false ->
  find (lit "</head>") content = Some i ->
  inject snippet content
  = take i content ++ snippet ++ lit "</head>"
    ++ replace (lit "</head>") (snippet ++ lit "</head>")
         (drop (i + 7) content).
Proof.
  intros Hb Hf. unfold inject. rewrite Hb, (find_contains _ _ _ Hf).
  rewrite (replace_first _ _ _ i) by done.
  by rewrite <- app_assoc.
Qed.

(** X2: without a [</body>] and with a single [</head>] the snippet is put
    in once, before it. *)
Lemma inject_head_once snippet content i :
  contains (lit "</body>") content = false ->
  find (lit "</head>") content = Some i ->
  contains (lit "</head>") (drop (i + 7) content) = false ->
  inject snippet content = take i content ++ snippet ++ drop i content.
Proof.
  intros Hb Hf Hc. rewrite (inject_head _ _ i) by done.
  rewrite replace_absent by done.
  by rewrite (find_occurrence _ _ _ Hf).
Qed.

Lemma inject_append snippet content :
  contains (lit "</body>") content = false ->
  contains (lit "</head>") content = false ->
  inject snippet content = content ++ snippet.
Proof. intros Hb Hh. unfold inject. by rewrite Hb, Hh. Qed.

(** C1, at a document that names [</body>] twice (the second time in a
    comment): [str.replace] rewrites every occurrence, so the snippet is put
    in before both, not once before the first. *)
Theorem inject_before_every_body ws_port :
  inject (script ws_port) (lit "<body>x</body><!-- </body> -->")
  = lit "<body>x" ++ script ws_port ++ lit "</body><!-- "
    ++ script ws_port ++ lit "</body> -->".
Proof.
  generalize (script ws_port) as snippet. intros snippet.
  rewrite (inject_body _ _ 7) by (vm_compute; reflexivity).
  f_equal. f_equal.
  change (drop (7 + 7) (lit "<body>x</body><!-- </body> -->"))
    with (lit "<!-- </body> -->").
  rewrite (replace_first _ _ _ 5) by (done || (vm_compute; reflexivity)).
  change (take 5 (lit "<!-- </body> -->")) with (lit "<!-- ").
  rewrite replace_absent by (done || (vm_compute; reflexivity)).
  change (lit "</body><!-- ") with (lit "</body>" ++ lit "<!-- ").
  by rewrite <- !app_assoc.
Qed.

(** C10: the document is cut into pieces, and the output is the pieces in
    their order with one copy of the snippet between each two: nothing of the
    document is changed, moved or lost, and taking the copies out again
    leaves the document. *)
Theorem inject_preserves_content ws_port content :
  exists segs,
    content = concat segs
    /\ inject (script ws_port) content = join (script ws_port) segs.
Proof.
  generalize (script ws_port) as snippet. intros snippet.
  unfold inject.
  destruct (contains (lit "</body>") content).
  - destruct (replace_insert (lit "</body>") snippet content)
      as (segs & Hs & Hr & _); [done|]. by exists segs.
  - destruct (contains (lit "</head>") content).
    + destruct (replace_insert (lit "</head>") snippet content)
        as (segs & Hs & Hr & _); [done|]. by exists segs.
    + exists [content; []]. cbn [concat join].
      rewrite !app_nil_r. done.
Qed.

End Injection.

(** ** Text that can be encoded *)

Section Scalars.

Implicit Types (s content snippet : pystr) (c : codepoint).

Lemma lit_scalars (text : string) : scalars (lit text).
Proof.
  unfold scalars, lit. induction text as [|a text IH]; cbn; constructor; [|done].
  pose proof (N_ascii_bounded a) as Ha. unfold is_scalar.
  apply orb_true_iff. left. apply N.ltb_lt. lia.
Qed.

Lemma replace_Forall (P : codepoint -> Prop) old new s :
  Forall P new -> Forall P s -> Forall P (replace old new s).
Proof.
  intros Hnew. destruct old as [|a old]; unfold replace.
  - intros Hs. apply Forall_app. split; [done|].
    induction Hs as [|c s Hc Hs IH]; cbn; [done|].
    constructor; [done|]. by apply Forall_app.
  - pattern s. apply (occurrence_ind (a :: old)); [done| | |]; clear s.
    + done.
    + intros r IH [_ Hr]%Forall_app. rewrite replace_occ by done.
      apply Forall_app. auto.
    + intros c s Hsw IH [Hc Hs]%Forall_cons. rewrite replace_miss by done.
      constructor; auto.
Qed.

Lemma script_scalars ws_port : scalars (script ws_port).
Proof.
  unfold script. apply replace_Forall; [|apply lit_scalars].
  destruct ws_port; apply lit_scalars.
Qed.

Lemma inject_scalars snippet content :
  scalars snippet -> scalars content -> scalars (inject snippet content).
Proof.
  intros Hs Hc. unfold inject.
  destruct (contains _ content); [|destruct (contains _ content)].
  - apply replace_Forall; [|done]. apply Forall_app. split; [done|apply lit_scalars].
  - apply replace_Forall; [|done]. apply Forall_app. split; [done|apply lit_scalars].
  - by apply Forall_app.
Qed.

Lemma universal_newlines_Forall (P : codepoint -> Prop) s :
  P 10%N -> Forall P s -> Forall P (universal_newlines s).
Proof.
  intros H10. remember (length s) as n eqn:Hn. revert s Hn.
  induction n as [n IH] using lt_wf_ind. intros s -> Hs.
  destruct Hs as [|c s Hc Hs]; [done|]. cbn [universal_newlines].
  destruct (c =? 13)%N.
  - constructor; [done|]. destruct Hs as [|d s Hd Hs]; [done|].
    destruct (d =? 10)%N.
    + apply (IH (length s)); [cbn; lia|done|done].
    + apply (IH (length (d :: s))); [cbn; lia|done|by constructor].
  - constructor; [done|]. apply (IH (length s)); [cbn; lia|done|done].
Qed.

Lemma is_scalar_spec c :
  is_scalar c = true <-> (c < 0xD800 \/ 0xDFFF < c < 0x110000)%N.
Proof.
  unfold is_scalar. rewrite orb_true_iff, andb_true_iff, !N.ltb_lt. tauto.
Qed.

(** The strict decoder yields scalar values only. *)
Lemma decode_from_scalars data :
  forall pos s, decode_from pos data = inr s -> scalars s.
Proof.
  remember (length data) as n eqn:Hn. revert data Hn.
  induction n as [n IH] using lt_wf_ind. intros data -> pos s.
  assert (Hrec : forall pos' data' s', length data' < length data ->
            decode_from pos' data' = inr s' -> scalars s').
  { intros pos' data' s' Hlt. by apply (IH (length data')). }
  clear IH. destruct data as [|b0 r0]; cbn [decode_from].
  { intros [= <-]. constructor. }
  destruct (b0 <? 0x80)%N eqn:H80.
  { destruct (decode_from (S pos) r0) as [e|s'] eqn:Hd; [done|].
    intros [= <-]. constructor.
    - apply is_scalar_spec. bool_to_prop. lia.
    - eapply Hrec; [|done]. cbn. lia. }
  destruct (b0 <? 0xC2)%N eqn:HC2; [done|].
  destruct (b0 <? 0xE0)%N eqn:HE0.
  { destruct r0 as [|b1 r1]; [done|].
    destruct (is_cont b1) eqn:Hc1; [|done].
    destruct (decode_from (2 + pos) r1) as [e|s'] eqn:Hd; [done|].
    intros [= <-]. constructor.
    - apply is_scalar_spec. unfold is_cont in *. bool_to_prop. lia.
    - eapply Hrec; [|done]. cbn. lia. }
  destruct (b0 <? 0xF0)%N eqn:HF0.
  { destruct r0 as [|b1 [|b2 r2]]; [done|done|].
    match goal with |- (if ?g then _ else _) = _ -> _ =>
      destruct g eqn:Hg; [|done] end.
    destruct (decode_from (3 + pos) r2) as [e|s'] eqn:Hd; [done|].
    intros [= <-]. constructor.
    - apply is_scalar_spec. unfold is_cont in *. bool_to_prop.
      repeat match goal with H : _ \/ _ |- _ => destruct H end;
        bool_to_prop; lia.
    - eapply Hrec; [|done]. cbn. lia. }
  destruct (b0 <? 0xF5)%N eqn:HF5; [|done].
  destruct r0 as [|b1 [|b2 [|b3 r3]]]; [done|done|done|].
  match goal with |- (if ?g then _ else _) = _ -> _ =>
    destruct g eqn:Hg; [|done] end.
  destruct (decode_from (4 + pos) r3) as [e|s'] eqn:Hd; [done|].
  intros [= <-]. constructor.
  - apply is_scalar_spec. unfold is_cont in *. bool_to_prop.
    repeat match goal with H : _ \/ _ |- _ => destruct H end;
      bool_to_prop; lia.
  - eapply Hrec; [|done]. cbn. lia.
Qed.

(** What [f.read()] returns can be encoded again. *)
Lemma read_text_scalars fs path content :
  read_text fs path = inr content -> scalars content.
Proof.
  unfold read_text. destruct (fs path) as [| |data]; [done|done|].
  unfold decode. destruct (decode_from 0 data) as [e|s] eqn:Hd; [done|].
  intros [= <-]. apply universal_newlines_Forall; [done|].
  by eapply decode_from_scalars.
Qed.

Lemma encode_char_scalar c :
  is_scalar c = true ->
  exists b, encode_char c = Some b /\ length b = width c.
Proof.
  intros Hc%is_scalar_spec. unfold encode_char, width.
  repeat match goal with
  | |- context [if ?g then _ else _] => destruct g eqn:?
  end; bool_to_prop; try (eexists; split; [reflexivity|reflexivity]);
  exfalso; repeat match goal with H : _ \/ _ |- _ => destruct H end; lia.
Qed.

(** Encoding text of scalar values never fails, and takes [byte_length]
    octets. *)
Lemma encode_from_scalars s :
  scalars s ->
  forall pos, exists b, encode_from pos s = inr b /\ length b = byte_length s.
Proof.
  unfold byte_length.
  induction 1 as [|c s Hc Hs IH]; intros pos; cbn [encode_from foldr].
  - by exists [].
  - destruct (encode_char_scalar c Hc) as (b & -> & Hb).
    destruct (IH (S pos)) as (r & -> & Hr).
    exists (b ++ r). split; [done|]. rewrite length_app. lia.
Qed.

(** A character takes at least one octet. *)
Lemma byte_length_ge s : length s <= byte_length s.
Proof.
  unfold byte_length. induction s as [|c s IH]; cbn [foldr length]; [done|].
  assert (1 <= width c); [|lia]. unfold width.
  repeat match goal with
  | |- context [if ?g then _ else _] => destruct g
  end; lia.
Qed.

End Scalars.

(** ** The status line of an error *)

Lemma latin_1_error_app a b :
  latin_1_error (a ++ b)
  = match latin_1_error a with
    | Some i => Some i
    | None => (fun i => length a + i) <$> latin_1_error b
    end.
Proof.
  induction a as [|c a IH]; cbn [app latin_1_error length].
  - by destruct (latin_1_error b).
  - destruct (c <? 256)%N; [|done]. rewrite IH.
    destruct (latin_1_error a); [done|]. by destruct (latin_1_error b).
Qed.

(** The status line of a 500 can be encoded exactly when the message can:
    the message starts 13 characters into the line. *)
Lemma status_line_500 message :
  latin_1_error (status_line 500 message)
  = (fun i => 13 + i) <$> latin_1_error message.
Proof.
  unfold status_line.
  change (lit "HTTP/1.0 " ++ str_of_int 500 ++ lit " "
          ++ message ++ [13; 10]%N)
    with (lit "HTTP/1.0 500 " ++ message ++ [13; 10]%N).
  rewrite !latin_1_error_app.
  change (latin_1_error (lit "HTTP/1.0 500 ")) with (@None nat).
  change (latin_1_error [13; 10]%N) with (@None nat).
  by destruct (latin_1_error message).
Qed.

(** ** The response of the injection responder *)

Section Response.

Variable str_exn : exn -> pystr.
Variable translate_path : pystr -> pystr.
Variable ws_port : option Z.

(** C4: when the file is read, the responder answers 200 with the content
    type [text/html; charset=utf-8], declares as content length the number of
    octets of the UTF-8 encoding of the rewritten document, and writes
    exactly that encoding. *)
Theorem serve_html_response fs path content :
  read_text fs path = inr content ->
  exists body,
    encode (inject (script ws_port) content) = inr body
    /\ length body = byte_length (inject (script ws_port) content)
    /\ _serve_html_with_reload str_exn ws_port fs path
       = ([send_response 200;
           send_header (lit "Content-Type")
             (HStr (lit "text/html; charset=utf-8"));
           send_header (lit "Content-Length") (HInt (Z.of_nat (length body)));
           end_headers;
           wfile_write body],
          inr tt).
Proof.
  intros Hread.
  pose proof (inject_scalars _ _ (script_scalars ws_port)
                (read_text_scalars _ _ _ Hread)) as Hdoc.
  destruct (encode_from_scalars _ Hdoc 0) as (body & Henc & Hlen).
  exists body. split; [done|]. split; [done|].
  change (encode (inject (script ws_port) content) = inr body) in Henc.
  unfold _serve_html_with_reload. rewrite Hread.
  unfold try_except, mbind, M_bind, bind, lift, call.
  rewrite Henc. reflexivity.
Qed.

(** A failure to read or to decode is caught, and its description is handed
    to [send_error] with the status 500. *)
Lemma read_failure_reaches_send_error fs path e :
  read_text fs path = inl e ->
  _serve_html_with_reload str_exn ws_port fs path
  = call_send_error 500 (str_exn e).
Proof.
  intros Hread. unfold _serve_html_with_reload. rewrite Hread.
  cbn [lift mbind M_bind bind try_except app].
  by destruct (call_send_error 500 (str_exn e)).
Qed.

(** A failure whose description the codec [latin-1] can encode (that of a
    failed decoding always is one) is answered by [send_error(500, str(e))]:
    the handler returns, and the answers to the requests before and after
    it are what they are without it. *)
Lemma encodable_failure_is_a_500 before after fs request e :
  endswith (lit ".html") (translate_path request)
  || endswith (lit ".htm") (translate_path request) = true ->
  exists_ fs (translate_path request) = true ->
  read_text fs (translate_path request) = inl e ->
  latin_1_error (str_exn e) = None ->
  _serve_html_with_reload str_exn ws_port fs (translate_path request)
  = ([send_error 500 (str_exn e)], inr tt)
  /\ serve str_exn translate_path ws_port (before ++ (fs, request) :: after)
     = serve str_exn translate_path ws_port before
       ++ ([send_error 500 (str_exn e)], inr tt)
       :: serve str_exn translate_path ws_port after.
Proof.
  intros Hext Hex Hread Hmsg.
  assert (Hserve : _serve_html_with_reload str_exn ws_port fs
                     (translate_path request)
                   = ([send_error 500 (str_exn e)], inr tt)).
  { rewrite (read_failure_reaches_send_error _ _ _ Hread).
    unfold call_send_error. by rewrite status_line_500, Hmsg. }
  split; [done|].
  unfold serve. rewrite map_app. cbn [map]. f_equal. f_equal.
  unfold finish_request, do_GET. cbn [fst snd].
  by rewrite Hext, Hex.
Qed.

(** C7: a failure to read whose description holds a character above U+00FF
    (the description of an [OSError] ends with the name of the file) is not
    answered by a 500. [send_error], called in the [except] clause, raises
    [UnicodeEncodeError] at that character of the status line before
    anything is sent, and the exception leaves [do_GET]. *)
Theorem read_failure_escapes fs request e i :
  endswith (lit ".html") (translate_path request)
  || endswith (lit ".htm") (translate_path request) = true ->
  exists_ fs (translate_path request) = true ->
  read_text fs (translate_path request) = inl e ->
  latin_1_error (str_exn e) = Some i ->
  do_GET str_exn translate_path ws_port fs request
  = ([send_error 500 (str_exn e)], inl (UnicodeEncodeError (13 + i))).
Proof.
  intros Hext Hex Hread Hmsg. unfold do_GET. rewrite Hext, Hex.
  rewrite (read_failure_reaches_send_error _ _ _ Hread).
  unfold call_send_error. by rewrite status_line_500, Hmsg.
Qed.

End Response.

(** The page of the samples: its 43 characters take 44 octets, and with the
    script for port 8001 the declared length is 384, not 383. *)
Lemma serve_html_response_witness :
  read_text Samples.root (lit "index.html") = inr Samples.page_text
  /\ exists body,
       encode (inject (script (Some 8001%Z)) Samples.page_text) = inr body
       /\ length body
          = byte_length (inject (script (Some 8001%Z)) Samples.page_text)
       /\ _serve_html_with_reload Samples.describe (Some 8001%Z) Samples.root
            (lit "index.html")
          = ([send_response 200;
              send_header (lit "Content-Type")
                (HStr (lit "text/html; charset=utf-8"));
              send_header (lit "Content-Length")
                (HInt (Z.of_nat (length body)));
              end_headers;
              wfile_write body],
             inr tt).
Proof.
  split; [vm_compute; reflexivity|].
  apply (serve_html_response Samples.describe (Some 8001%Z) Samples.root
           (lit "index.html") Samples.page_text).
  vm_compute; reflexivity.
Defined.

(** A file that is not UTF-8, between two requests for the page. *)
Lemma encodable_failure_is_a_500_sample :
  _serve_html_with_reload Samples.describe (Some 8001%Z) Samples.root
    (lit "broken.html")
  = ([send_error 500 (lit "UnicodeDecodeError")], inr tt)
  /\ serve Samples.describe id (Some 8001%Z)
       ([(Samples.root, lit "index.html")]
        ++ (Samples.root, lit "broken.html")
        :: [(Samples.root, lit "index.html")])
     = serve Samples.describe id (Some 8001%Z) [(Samples.root, lit "index.html")]
       ++ ([send_error 500 (lit "UnicodeDecodeError")], inr tt)
       :: serve Samples.describe id (Some 8001%Z)
            [(Samples.root, lit "index.html")].
Proof.
  apply (encodable_failure_is_a_500 Samples.describe id (Some 8001%Z)
           [(Samples.root, lit "index.html")]
           [(Samples.root, lit "index.html")]
           Samples.root (lit "broken.html") (UnicodeDecodeError 0));
    vm_compute; reflexivity.
Defined.

(** A page named with U+65E5 that may not be opened: the description puts
    the name at offset 20, the status line at offset 33, and the request
    ends with [UnicodeEncodeError] instead of a 500. *)
Lemma read_failure_escapes_witness :
  do_GET Samples.describe_named id (Some 8001%Z) Samples.locked
    ([0x65E5]%N ++ lit ".html")
  = ([send_error 500
        (lit "Permission denied: '" ++ [0x65E5]%N ++ lit ".html'")],
     inl (UnicodeEncodeError (13 + 20))).
Proof.
  apply (read_failure_escapes Samples.describe_named id (Some 8001%Z)
           Samples.locked ([0x65E5]%N ++ lit ".html")
           (OSError 13 ([0x65E5]%N ++ lit ".html")) 20);
    vm_compute; reflexivity.
Defined.

Example page_sizes :
  length Samples.page_text = 43 /\ byte_length Samples.page_text = 44
  /\ length (inject (script (Some 8001%Z)) Samples.page_text) = 383
  /\ byte_length (inject (script (Some 8001%Z)) Samples.page_text) = 384.
Proof. vm_compute. repeat split. Qed.

(** ** The broadcast *)

Section Broadcast.

Implicit Types (cl disconnected : gset conn) (ws : conn)
  (sends : list send_record) (todo : list conn).

(** A pass during which no other task touches the registry visits every
    connection it set out to visit, whatever the sends do, and then removes
    the connections whose send raised. *)
Lemma for_ws_undisturbed send_ok todo cl disconnected sends :
  for_ws send_ok todo (size cl) false [] cl disconnected sends
  = Pass Returned
      (cl ∖ (disconnected
             ∪ list_to_set (filter (fun ws => send_ok ws = false) todo)))
      (sends ++ map (sent_to send_ok) todo).
Proof.
  revert disconnected sends.
  induction todo as [|ws todo IH]; intros disconnected sends;
    cbn [for_ws hd tl registry_run foldl fst snd]; rewrite Nat.eqb_refl;
    cbn [negb].
  - rewrite filter_nil, app_nil_r. f_equal. set_solver.
  - rewrite IH. cbn [map]. rewrite <- app_assoc. cbn [app].
    unfold sent_to at 2. f_equal.
    rewrite filter_cons. destruct (send_ok ws) eqn:Hok.
    + rewrite decide_False by done. done.
    + rewrite decide_True by done. set_solver.
Qed.

(** Every message of a pass is [reload], disturbed or not. *)
Lemma for_ws_messages send_ok todo used touched during cl disconnected sends :
  Forall (fun s : send_record => s.1.2 = lit "reload") sends ->
  Forall (fun s : send_record => s.1.2 = lit "reload")
    (pass_sends
       (for_ws send_ok todo used touched during cl disconnected sends)).
Proof.
  revert used touched during cl disconnected sends.
  induction todo as [|ws todo IH]; intros used touched during cl disconnected
    sends Hs; cbn [for_ws];
    destruct (negb (size cl =? used)); [done| |done|];
    destruct touched; try done.
  apply IH. apply Forall_app. split; [done|]. by constructor.
Qed.


(** C6: with no connection registered the coroutine returns at once: nothing
    is sent and the registry stays empty; so does every coroutine the loop
    resumes at that time. *)
Theorem broadcast_without_clients (send_ok : nat -> conn -> bool) :
  (forall ok during, _notify_clients ok during ∅ = Pass Returned ∅ [])
  /\ (forall t ts l,
        (run_due send_ok t ts ∅ l).1.2 = ∅
        /\ messages (run_due send_ok t ts ∅ l).2 = messages l).
Proof.
  assert (Hpass : forall ok during, _notify_clients ok during ∅ = Pass Returned ∅ []).
  { intros ok during. unfold _notify_clients. by rewrite bool_decide_eq_true_2. }
  split; [done|].
  intros t ts. induction ts as [|k ts IH]; intros l; cbn [run_due]; [done|].
  destruct (live k && (wake k <=? t)).
  - rewrite Hpass. cbn [pass_clients pass_sends map].
    specialize (IH (l ++ [Woke t])).
    destruct (run_due send_ok t ts ∅ (l ++ [Woke t])) as [[ts' cl'] l'].
    cbn [fst snd] in *. destruct IH as [-> ->].
    split; [done|]. unfold messages. rewrite omap_app. cbn [omap].
    by rewrite app_nil_r.
  - specialize (IH l).
    destruct (run_due send_ok t ts ∅ l) as [[ts' cl'] l']. done.
Qed.

(** C8, where the code departs from it: the pass iterates the registry
    itself, not a copy. A browser connecting while the first send of a pass is
    awaited: the iterator finds the set grown and raises. One connection has been sent the
    signal, the other members have not, and no connection is removed. *)
Theorem registration_aborts_broadcast send_ok cl ws' :
  1 < size cl -> ws' ∉ cl ->
  exists ws missed,
    ws ∈ cl /\ missed ∈ cl /\ missed <> ws
    /\ pass_outcome (_notify_clients send_ok [[add ws']] cl) = RuntimeError
    /\ pass_sends (_notify_clients send_ok [[add ws']] cl)
       = [sent_to send_ok ws]
    /\ pass_clients (_notify_clients send_ok [[add ws']] cl) = {[ws']} ∪ cl.
Proof.
  intros Hsize Hfresh. unfold _notify_clients.
  assert (Hne : cl <> ∅) by (intros ->; rewrite size_empty in Hsize; lia).
  rewrite bool_decide_eq_false_2 by done.
  pose proof (NoDup_elements cl) as Hnd.
  assert (Hlen : length (elements cl) = size cl) by done.
  destruct (elements cl) as [|ws [|missed rest]] eqn:Hel;
    [cbn in Hlen; lia|cbn in Hlen; lia|].
  exists ws, missed.
  assert (Hws : ws ∈ cl) by (apply elem_of_elements; rewrite Hel; set_solver).
  assert (Hm : missed ∈ cl) by (apply elem_of_elements; rewrite Hel; set_solver).
  assert (Hneq : missed <> ws).
  { intros ->. apply NoDup_cons in Hnd as [Hnotin _]. set_solver. }
  split_and!; try done;
    cbn [for_ws hd tl registry_run foldl fst snd registry_apply effective];
    rewrite Nat.eqb_refl; cbn [negb];
    rewrite size_union by set_solver; rewrite size_singleton;
    (replace (1 + size cl =? size cl) with false
       by (symmetry; apply Nat.eqb_neq; lia)); done.
Qed.

End Broadcast.

(** At the registry [{1, 2}], when connection 3 registers during the first
    send, the pass ends in [RuntimeError] after one send. *)
Lemma registration_aborts_broadcast_witness :
  1 < size ({[1; 2]} : gset conn) /\ (3 ∉ ({[1; 2]} : gset conn))
  /\ exists ws missed,
       ws ∈ ({[1; 2]} : gset conn) /\ missed ∈ ({[1; 2]} : gset conn)
       /\ missed <> ws
       /\ pass_outcome (_notify_clients (fun _ => true) [[add 3]] {[1; 2]})
          = RuntimeError
       /\ pass_sends (_notify_clients (fun _ => true) [[add 3]] {[1; 2]})
          = [sent_to (fun _ => true) ws]
       /\ pass_clients (_notify_clients (fun _ => true) [[add 3]] {[1; 2]})
          = {[3]} ∪ {[1; 2]}.
Proof.
  assert (H1 : 1 < size ({[1; 2]} : gset conn)) by (vm_compute; lia).
  assert (H2 : 3 ∉ ({[1; 2]} : gset conn)) by set_solver.
  split; [exact H1|]. split; [exact H2|].
  exact (registration_aborts_broadcast (fun _ => true) {[1; 2]} 3 H1 H2).
Defined.

(** ** The watcher and the debounce timer *)

Section Debounce.

Variable send_ok : nat -> conn -> bool.

Implicit Types (w : world) (k : task) (ts pre post : list task)
  (steps : list step) (event : FileSystemEvent).

Local Abbreviation run := (run send_ok).
Local Abbreviation do_step := (do_step send_ok).
Local Abbreviation run_due := (run_due send_ok).
Local Abbreviation calms := (Forall (fun s => calm s = true)).

Lemma dispatch_qualifying event w :
  qualifying event = true -> dispatch event w = _trigger_reload w.
Proof.
  unfold qualifying, dispatch, on_modified, on_created.
  destruct (ev_type event); try done;
    intros [Hd He]%andb_true_iff; apply negb_true_iff in Hd;
    by rewrite Hd, He.
Qed.

Lemma dispatch_discarded event w :
  qualifying event = false -> dispatch event w = w.
Proof.
  unfold qualifying, dispatch, on_modified, on_created.
  destruct (ev_type event); try done;
    destruct (is_directory event); try done; cbn [negb andb];
    by intros ->.
Qed.


Lemma run_cons w s steps : run w (s :: steps) = run (do_step w s) steps.
Proof. done. Qed.







Lemma broadcasts_app l1 l2 :
  broadcasts (l1 ++ l2) = broadcasts l1 ++ broadcasts l2.
Proof. apply omap_app. Qed.

Lemma broadcasts_woke t l : broadcasts (Woke t :: l) = t :: broadcasts l.
Proof. done. Qed.

Lemma broadcasts_sent t sends : broadcasts (map (Sent t) sends) = [].
Proof. by induction sends. Qed.

(** [_trigger_reload] cancels what was pending and leaves one pending
    future, due a debounce delay from now. *)
Lemma trigger_rearms w :
  tame w ->
  armed (now w + debounce_ms) (_trigger_reload w)
  /\ now (_trigger_reload w) = now w
  /\ log (_trigger_reload w) = log w
  /\ clients (_trigger_reload w) = clients w.
Proof.
  intros Htame. split; [|done]. split; [cbn; unfold debounce_ms; lia|].
  unfold _trigger_reload. cbn [tasks debounce_timer].
  eexists _, []. split; [reflexivity|]. split; [done|]. split; [|done].
  destruct (debounce_timer w) as [i|] eqn:Hi.
  - apply Forall_lookup. intros j k Hj. unfold settled.
    destruct (decide (i = j)) as [->|Hne].
    + rewrite list_lookup_alter_eq in Hj.
      destruct (tasks w !! j) as [k0|]; [|done]. injection Hj as <-.
      unfold cancel, live. destruct (finished k0) eqn:Hf; cbn.
      * rewrite Hf. apply andb_false_r.
      * done.
    + rewrite list_lookup_alter_ne in Hj by done.
      destruct (live k) eqn:Hl; [|done].
      specialize (Htame j k Hj Hl). congruence.
  - apply Forall_lookup. intros j k Hj. unfold settled.
    destruct (live k) eqn:Hl; [|done].
    specialize (Htame j k Hj Hl). congruence.
Qed.

Lemma armed_tame T w : armed T w -> tame w.
Proof.
  intros (_ & pre & post & Hts & Htimer & Hpre & Hpost) i k Hik Hl.
  rewrite Hts in Hik. rewrite Htimer. f_equal.
  destruct (decide (i < length pre)) as [Hlt|Hge].
  - rewrite lookup_app_l in Hik by done.
    rewrite Forall_lookup in Hpre. specialize (Hpre _ _ Hik).
    unfold settled in Hpre. congruence.
  - rewrite lookup_app_r in Hik by lia.
    destruct (i - length pre) as [|j] eqn:Hj; [lia|].
    cbn in Hik. rewrite Forall_lookup in Hpost. specialize (Hpost _ _ Hik).
    unfold settled in Hpost. congruence.
Qed.






End Debounce.

Section Notification.

Variable send_ok : nat -> conn -> bool.

Implicit Types (w : world) (steps : list step) (event : FileSystemEvent).



Lemma messages_app l1 l2 : messages (l1 ++ l2) = messages l1 ++ messages l2.
Proof. apply omap_app. Qed.

Lemma messages_pass t sends :
  messages (Woke t :: map (Sent t) sends) = map (fun s => s.1.2) sends.
Proof.
  change (messages (Woke t :: map (Sent t) sends))
    with (messages (map (Sent t) sends)).
  induction sends as [|s sends IH]; [done|].
  cbn [map]. rewrite <- IH. done.
Qed.

Lemma notify_messages ok during cl :
  Forall (fun s : send_record => s.1.2 = lit "reload")
    (pass_sends (_notify_clients ok during cl)).
Proof.
  unfold _notify_clients. case_bool_decide; [by constructor|].
  by apply for_ws_messages.
Qed.

Lemma run_due_messages t ts : forall cl l,
  Forall (fun m => m = lit "reload") (messages l) ->
  Forall (fun m => m = lit "reload") (messages (run_due send_ok t ts cl l).2).
Proof.
  induction ts as [|k ts IH]; intros cl l Hl; cbn [run_due]; [done|].
  destruct (live k && (wake k <=? t)).
  - match goal with |- context [run_due send_ok t ts ?c ?m] =>
      specialize (IH c m); destruct (run_due send_ok t ts c m) as [[??]?]
    end.
    apply IH. rewrite messages_app, messages_pass. apply Forall_app.
    split; [done|]. apply Forall_fmap. apply notify_messages.
  - specialize (IH cl l Hl). by destruct (run_due send_ok t ts cl l) as [[??]?].
Qed.

Lemma step_messages w s :
  Forall (fun m => m = lit "reload") (messages (log w)) ->
  Forall (fun m => m = lit "reload") (messages (log (do_step send_ok w s))).
Proof.
  intros Hw. destruct s as [|event|ws|ws]; cbn [do_step]; try done.
  - pose proof (run_due_messages (S (now w)) (tasks w) (clients w) (log w) Hw).
    by destruct (run_due send_ok (S (now w)) (tasks w) (clients w) (log w))
      as [[??]?].
  - unfold dispatch, on_modified, on_created.
    by repeat match goal with
       | |- context [match ?x with _ => _ end] => destruct x
       end.
Qed.

(** C9: whatever happens, in whatever order, every message a run sends to a
    connection is [reload]; so is every message of a single pass, disturbed
    or not. *)
Theorem only_reload_is_sent :
  (forall ok during cl,
     Forall (fun s : send_record => s.1.2 = lit "reload")
       (pass_sends (_notify_clients ok during cl)))
  /\ (forall steps,
        Forall (fun m => m = lit "reload")
          (messages (log (run send_ok initial steps)))).
Proof.
  split; [apply notify_messages|].
  intros steps. assert (H0 : Forall (fun m => m = lit "reload")
                               (messages (log initial))) by constructor.
  revert H0. generalize initial as w.
  induction steps as [|s steps IH]; intros w Hw; [done|].
  rewrite run_cons. apply IH. by apply step_messages.
Qed.

End Notification.


Example debounce_sample :
  broadcasts
    (log (run Samples.flaky initial
            (burst [(Samples.edit,
                     replicate 40 Tick ++ [Connect 1; Fs Samples.swap])]
             ++ Fs Samples.save :: replicate 250 Tick)))
  = [140]
  /\ broadcasts
       (log (run Samples.flaky initial
               (Fs Samples.edit :: replicate 100 Tick
                ++ Fs Samples.save :: replicate 100 Tick)))
     = [100; 200].
Proof. vm_compute. split; reflexivity. Qed.

(** * Further properties of the code *)

(** ** The codec: what is written can be read back *)

Section Codec.

Implicit Types (s : pystr) (c : codepoint) (data rest : pybytes) (pos : nat).

(** Decide the comparisons of a goal by arithmetic. *)
Ltac decide_tests :=
  repeat match goal with
  | |- context [(?a <? ?b)%N] =>
      first [ rewrite (proj2 (N.ltb_lt a b)) by div_lia
            | rewrite (proj2 (N.ltb_ge a b)) by div_lia ]
  | |- context [(?a <=? ?b)%N] =>
      first [ rewrite (proj2 (N.leb_le a b)) by div_lia
            | rewrite (proj2 (N.leb_gt a b)) by div_lia ]
  | |- context [(?a =? ?b)%N] =>
      first [ rewrite (proj2 (N.eqb_eq a b)) by div_lia
            | rewrite (proj2 (N.eqb_neq a b)) by div_lia ]
  end.

(** Split on the comparisons that depend on the value, and close each
    case: the guard of the decoder holds and the value is put together
    again. *)
Ltac split_tests :=
  repeat match goal with
  | |- context [(?a =? ?b)%N] => destruct (N.eqb_spec a b)
  | |- context [(?a <? ?b)%N] => destruct (N.ltb_spec a b)
  end;
  cbn [andb negb]; try (exfalso; div_lia);
  match goal with
  | |- context [decode_from ?p ?r] =>
      destruct (decode_from p r); [done|]; f_equal; f_equal; div_lia
  end.

(** The same for the encoder: the octets put out are the octets read. *)
Ltac split_octets :=
  repeat match goal with
  | |- context [(?a <=? ?b)%N] => destruct (N.leb_spec a b)
  | |- context [(?a <? ?b)%N] => destruct (N.ltb_spec a b)
  end;
  cbn [andb app]; try (exfalso; div_lia);
  repeat first [reflexivity | div_lia | progress f_equal].

Lemma encode_octets s :
  scalars s -> forall pos, encode_from pos s = inr (octets s).
Proof.
  induction 1 as [|c s Hc Hs IH]; intros pos; cbn [encode_from]; [done|].
  destruct (encode_char_scalar c Hc) as (b & Hb & _).
  unfold octets. cbn [flat_map]. unfold octets_of at 1.
  rewrite Hb, IH. done.
Qed.

Lemma octets_app s1 s2 : octets (s1 ++ s2) = octets s1 ++ octets s2.
Proof. apply flat_map_app. Qed.

Lemma octets_concat (segs : list pystr) :
  octets (concat segs) = concat (map octets segs).
Proof.
  induction segs as [|s segs IH]; [done|].
  cbn [concat map]. by rewrite octets_app, IH.
Qed.

Lemma octets_join sep (segs : list pystr) :
  octets (join sep segs) = join (octets sep) (map octets segs).
Proof.
  induction segs as [|s [|s' segs] IH]; [done|done|].
  change (join sep (s :: s' :: segs)) with (s ++ sep ++ join sep (s' :: segs)).
  rewrite !octets_app, IH. done.
Qed.

(** The octets of a scalar value decode to it. *)
Lemma decode_from_char c rest pos :
  is_scalar c = true ->
  decode_from pos (octets_of c ++ rest)
  = match decode_from (width c + pos) rest with
    | inl e => inl e
    | inr s => inr (c :: s)
    end.
Proof.
  intros Hc%is_scalar_spec. unfold octets_of, encode_char, width.
  destruct (c <? 0x80)%N eqn:H1; [|destruct (c <? 0x800)%N eqn:H2;
    [|destruct (c <? 0x10000)%N eqn:H3]]; bool_to_prop.
  - cbn [app decode_from]. rewrite (proj2 (N.ltb_lt c 0x80)) by done. done.
  - cbn [app decode_from]. unfold is_cont. decide_tests. cbn [andb].
    destruct (decode_from (2 + pos) rest); [done|]. f_equal. f_equal. div_lia.
  - rewrite (proj2 (andb_false_iff _ _)).
    2:{ destruct Hc as [Hc|Hc]; [left; apply N.leb_gt; lia
                               |right; apply N.leb_gt; lia]. }
    cbn [app decode_from]. unfold is_cont. decide_tests. split_tests.
  - rewrite (proj2 (N.ltb_lt c 0x110000)) by lia.
    cbn [app decode_from]. unfold is_cont. decide_tests. split_tests.
Qed.

Lemma decode_octets s :
  scalars s -> forall pos, decode_from pos (octets s) = inr s.
Proof.
  induction 1 as [|c s Hc Hs IH]; intros pos; [done|].
  unfold octets. cbn [flat_map]. fold (octets s).
  by rewrite decode_from_char, IH.
Qed.

(** What the strict decoder accepts is the encoding of what it returns. *)
Lemma octets_decode data :
  forall pos s, decode_from pos data = inr s -> octets s = data.
Proof.
  remember (length data) as n eqn:Hn. revert data Hn.
  induction n as [n IH] using lt_wf_ind. intros data -> pos s.
  assert (Hrec : forall pos' data' s', length data' < length data ->
            decode_from pos' data' = inr s' -> octets s' = data').
  { intros pos' data' s' Hlt. by apply (IH (length data')). }
  clear IH. destruct data as [|b0 r0]; cbn [decode_from].
  { by intros [= <-]. }
  assert (Hcons : forall c s', octets (c :: s') = octets_of c ++ octets s')
    by done.
  destruct (b0 <? 0x80)%N eqn:H80.
  { destruct (decode_from (S pos) r0) as [e|s'] eqn:Hd; [done|].
    intros [= <-]. rewrite Hcons, (Hrec _ r0 _ ltac:(cbn; lia) Hd).
    unfold octets_of, encode_char. by rewrite H80. }
  destruct (b0 <? 0xC2)%N eqn:HC2; [done|].
  destruct (b0 <? 0xE0)%N eqn:HE0.
  { destruct r0 as [|b1 r1]; [done|].
    destruct (is_cont b1) eqn:Hc1; [|done].
    destruct (decode_from (2 + pos) r1) as [e|s'] eqn:Hd; [done|].
    intros [= <-]. rewrite Hcons, (Hrec _ r1 _ ltac:(cbn; lia) Hd).
    unfold octets_of, encode_char, is_cont in *. bool_to_prop.
    decide_tests. cbn [app]. f_equal; [div_lia|]. f_equal. div_lia. }
  destruct (b0 <? 0xF0)%N eqn:HF0.
  { destruct r0 as [|b1 [|b2 r2]]; [done|done|].
    match goal with |- (if ?g then _ else _) = _ -> _ =>
      destruct g eqn:Hg; [|done] end.
    destruct (decode_from (3 + pos) r2) as [e|s'] eqn:Hd; [done|].
    intros [= <-]. rewrite Hcons, (Hrec _ r2 _ ltac:(cbn; lia) Hd).
    unfold octets_of, encode_char, is_cont in *. bool_to_prop.
    repeat match goal with H : _ \/ _ |- _ => destruct H end; bool_to_prop;
      decide_tests; split_octets. }
  destruct (b0 <? 0xF5)%N eqn:HF5; [|done].
  destruct r0 as [|b1 [|b2 [|b3 r3]]]; [done|done|done|].
  match goal with |- (if ?g then _ else _) = _ -> _ =>
    destruct g eqn:Hg; [|done] end.
  destruct (decode_from (4 + pos) r3) as [e|s'] eqn:Hd; [done|].
  intros [= <-]. rewrite Hcons, (Hrec _ r3 _ ltac:(cbn; lia) Hd).
  unfold octets_of, encode_char, is_cont in *. bool_to_prop.
  repeat match goal with H : _ \/ _ |- _ => destruct H end; bool_to_prop;
    decide_tests; split_octets.
Qed.

End Codec.

(** ** The snippet *)

Section Snippet.

Implicit Types (s sub : pystr) (c : codepoint) (ws_port : option Z).

Lemma forallb_Forall (f : codepoint -> bool) s :
  forallb f s = true -> Forall (fun c => f c = true) s.
Proof.
  induction s as [|c s IH]; cbn [forallb]; [constructor|].
  intros [Hc Hs]%andb_true_iff. constructor; auto.
Qed.

Lemma is_int_char_spec c :
  is_int_char c = true -> (c = 45 \/ 48 <= c <= 57)%N.
Proof.
  unfold is_int_char. intros [H|H]%orb_true_iff; bool_to_prop; lia.
Qed.

Lemma uint_chars (u : Decimal.uint) :
  Forall (fun c => is_int_char c = true) (lit (NilEmpty.string_of_uint u)).
Proof. induction u; cbn; constructor; done. Qed.

(** [str] of an [int] is made of digits, after a sign if there is one. *)
Lemma str_of_int_chars (n : Z) :
  Forall (fun c => is_int_char c = true) (str_of_int n).
Proof.
  unfold str_of_int, NilZero.string_of_int, NilZero.string_of_uint.
  destruct (Z.to_int n) as [u|u].
  - destruct u; try apply uint_chars. by repeat constructor.
  - change (lit (String "-" ?x)) with (45%N :: lit x).
    constructor; [done|].
    destruct u; try apply uint_chars. by repeat constructor.
Qed.

Lemma str_port_chars (f : codepoint -> bool) ws_port :
  (forall c, is_int_char c = true -> f c = true) ->
  forallb f (lit "None") = true ->
  Forall (fun c => f c = true) (str_port ws_port).
Proof.
  intros Hint Hnone. destruct ws_port as [n|]; cbn [str_port].
  - eapply Forall_impl; [apply str_of_int_chars|done].
  - by apply forallb_Forall.
Qed.

(** A string without the first character of [sub] has no occurrence of
    [sub]. *)
Lemma contains_no_head c sub s :
  Forall (fun d => d <> c) s -> contains (c :: sub) s = false.
Proof.
  induction 1 as [|d s Hd Hs IH]; [done|].
  cbn [contains startswith]. rewrite IH.
  rewrite (proj2 (N.eqb_neq c d)) by congruence. done.
Qed.

(** Characters other than the first of [sub] open no occurrence. *)
Lemma contains_skip c sub m q :
  Forall (fun d => d <> c) m ->
  contains (c :: sub) (m ++ q) = contains (c :: sub) q.
Proof.
  induction 1 as [|d m Hd Hm IH]; [done|].
  cbn [app contains startswith]. rewrite IH.
  rewrite (proj2 (N.eqb_neq c d)) by congruence. done.
Qed.

Lemma script_parts ws_port :
  script ws_port = script_prefix ++ str_port ws_port ++ script_suffix.
Proof.
  unfold script.
  rewrite (replace_first _ _ _ 69) by (done || (vm_compute; reflexivity)).
  rewrite replace_absent by (done || (vm_compute; reflexivity)).
  assert (take 69 LIVE_RELOAD_SCRIPT = script_prefix) as ->
    by (vm_compute; reflexivity).
  assert (drop (69 + length (lit "PORT_PLACEHOLDER")) LIVE_RELOAD_SCRIPT
          = script_suffix) as -> by (vm_compute; reflexivity).
  reflexivity.
Qed.

Lemma script_Forall (f : codepoint -> bool) ws_port :
  (forall c, is_int_char c = true -> f c = true) ->
  forallb f (lit "None") = true ->
  forallb f script_prefix = true -> forallb f script_suffix = true ->
  Forall (fun c => f c = true) (script ws_port).
Proof.
  intros Hint Hnone Hpre Hsuf. rewrite script_parts.
  apply Forall_app. split; [by apply forallb_Forall|].
  apply Forall_app. split; [by apply str_port_chars|by apply forallb_Forall].
Qed.

(** X4: the snippet is the template with the port in the place of the
    placeholder: it opens [ws://localhost:<port>], and no placeholder is
    left, whatever the port. *)
Theorem script_names_the_port ws_port :
  script ws_port = script_prefix ++ str_port ws_port ++ script_suffix
  /\ endswith (lit "new WebSocket('ws://localhost:") script_prefix = true
  /\ startswith (lit "');") script_suffix = true
  /\ contains (lit "PORT_PLACEHOLDER") (script ws_port) = false
  /\ contains (lit "</body>") (script ws_port) = false
  /\ contains (lit "</head>") (script ws_port) = false.
Proof.
  split; [apply script_parts|].
  split; [vm_compute; reflexivity|]. split; [vm_compute; reflexivity|].
  split.
  - change (lit "PORT_PLACEHOLDER") with (80%N :: lit "ORT_PLACEHOLDER").
    apply contains_no_head.
    pose proof (script_Forall (fun c => negb (c =? 80)%N) ws_port) as H.
    eapply Forall_impl; [apply H|]; clear H.
    + intros c Hc%is_int_char_spec. apply negb_true_iff, N.eqb_neq. lia.
    + vm_compute; reflexivity.
    + vm_compute; reflexivity.
    + vm_compute; reflexivity.
    + intros c Hc%negb_true_iff. by apply N.eqb_neq in Hc.
  - assert (Hlt : Forall (fun d => d <> 60%N) (str_port ws_port)).
    { eapply Forall_impl;
        [apply (str_port_chars (fun c => negb (c =? 60)%N))|].
      - intros c Hc%is_int_char_spec. apply negb_true_iff, N.eqb_neq. lia.
      - vm_compute; reflexivity.
      - intros c Hc%negb_true_iff. by apply N.eqb_neq in Hc. }
    rewrite script_parts. split.
    + transitivity (contains (lit "</body>")
                      (str_port ws_port ++ script_suffix)).
      { generalize (str_port ws_port ++ script_suffix). intros r.
        vm_compute; reflexivity. }
      change (lit "</body>") with (60%N :: lit "/body>").
      rewrite contains_skip by done. vm_compute; reflexivity.
    + transitivity (contains (lit "</head>")
                      (str_port ws_port ++ script_suffix)).
      { generalize (str_port ws_port ++ script_suffix). intros r.
        vm_compute; reflexivity. }
      change (lit "</head>") with (60%N :: lit "/head>").
      rewrite contains_skip by done. vm_compute; reflexivity.
Qed.

End Snippet.

(** ** How often and where the snippet is put in *)

Section Insertions.

Implicit Types (s old sep snippet content : pystr) (segs : list pystr).

Lemma count_positive old s :
  old <> [] -> contains old s = true -> 1 <= count old s.
Proof.
  intros Hne. destruct old as [|a old]; [done|]. unfold count.
  induction s as [|c s IH]; [done|].
  cbn [contains count_from].
  destruct (startswith (a :: old) (c :: s)); [lia|]. cbn [orb]. done.
Qed.

Lemma join_length sep segs :
  segs <> [] ->
  length (join sep segs)
  = length (concat segs) + (length segs - 1) * length sep.
Proof.
  intros Hne. induction segs as [|s [|s' segs] IH]; [done| |].
  - cbn. rewrite app_nil_r. lia.
  - change (join sep (s :: s' :: segs))
      with (s ++ sep ++ join sep (s' :: segs)).
    cbn [concat]. rewrite !length_app, IH by done. cbn [length concat].
    rewrite !length_app. lia.
Qed.

(** The pieces of the document and the number of copies put between them. *)
Lemma inject_segments snippet content :
  exists segs,
    content = concat segs
    /\ inject snippet content = join snippet segs
    /\ length segs = S (insertions content).
Proof.
  unfold inject, insertions.
  destruct (contains (lit "</body>") content).
  - by apply replace_insert.
  - destruct (contains (lit "</head>") content).
    + by apply replace_insert.
    + exists [content; []]. cbn [concat join length].
      by rewrite !app_nil_r.
Qed.

(** X3: the rewritten document is longer than the document by one snippet for
    each [</body>] it holds, else for each [</head>], else by one snippet;
    at least one copy is put in. *)
Theorem inject_length snippet content :
  length (inject snippet content)
  = length content + insertions content * length snippet
  /\ 1 <= insertions content.
Proof.
  split.
  - destruct (inject_segments snippet content) as (segs & Hc & -> & Hl).
    rewrite join_length by (by destruct segs).
    rewrite <- Hc, Hl. lia.
  - unfold insertions.
    destruct (contains (lit "</body>") content) eqn:Hb;
      [by apply count_positive|].
    destruct (contains (lit "</head>") content) eqn:Hh;
      [by apply count_positive|lia].
Qed.

End Insertions.

(** The page of the samples holds one [</body>], at offset 29: the snippet
    goes before it, and the [</head>] before that is left alone. *)
Lemma inject_body_once_witness :
  inject (script (Some 8001%Z)) Samples.page_text
  = take 29 Samples.page_text ++ script (Some 8001%Z)
    ++ drop 29 Samples.page_text.
Proof.
  apply (inject_body_once (script (Some 8001%Z)) Samples.page_text 29);
    vm_compute; reflexivity.
Defined.

(** The fragment of the samples has no [</body>] and one [</head>], at
    offset 22. *)
Lemma inject_head_once_witness :
  inject (script None) Samples.fragment
  = take 22 Samples.fragment ++ script None ++ drop 22 Samples.fragment.
Proof.
  apply (inject_head_once (script None) Samples.fragment 22);
    vm_compute; reflexivity.
Defined.

(** ** Carriage returns *)

Section LineEnds.

Implicit Types (s : pystr).

Lemma octets_no_CR s :
  Forall (fun b => b <> 13%N) (octets s) -> Forall (fun c => c <> 13%N) s.
Proof.
  induction s as [|c s IH]; [constructor|].
  unfold octets. cbn [flat_map]. fold (octets s).
  intros [Hc Hs]%Forall_app. constructor; [|by apply IH].
  intros ->. by apply Forall_cons in Hc as [? _].
Qed.

Lemma universal_newlines_id s :
  Forall (fun c => c <> 13%N) s -> universal_newlines s = s.
Proof.
  induction 1 as [|c s Hc Hs IH]; [done|]. cbn [universal_newlines].
  rewrite (proj2 (N.eqb_neq c 13)) by done. by rewrite IH.
Qed.

Lemma universal_newlines_no_CR s :
  Forall (fun c => c <> 13%N) (universal_newlines s).
Proof.
  remember (length s) as n eqn:Hn. revert s Hn.
  induction n as [n IH] using lt_wf_ind. intros s ->.
  destruct s as [|c s]; [constructor|]. cbn [universal_newlines].
  destruct (c =? 13)%N eqn:Hc.
  - constructor; [done|]. destruct s as [|d s]; [constructor|].
    destruct (d =? 10)%N.
    + apply (IH (length s)); [cbn; lia|done].
    + apply (IH (length (d :: s))); [cbn; lia|done].
  - constructor; [by apply N.eqb_neq|].
    apply (IH (length s)); [cbn; lia|done].
Qed.

Lemma octets_keep_no_CR s :
  Forall (fun c => c <> 13%N) s -> Forall (fun b => b <> 13%N) (octets s).
Proof.
  induction 1 as [|c s Hc Hs IH]; [constructor|].
  unfold octets. cbn [flat_map]. fold (octets s).
  apply Forall_app. split; [|done].
  unfold octets_of, encode_char.
  repeat match goal with
  | |- context [if ?g then _ else _] => destruct g
  end; repeat constructor; try done; div_lia.
Qed.

End LineEnds.

(** ** What the responder writes *)

Section Written.

Variable str_exn : exn -> pystr.
Variable translate_path : pystr -> pystr.
Variable ws_port : option Z.

Implicit Types (fs : disk) (path request content : pystr)
  (data body : pybytes).

(** What is written for a file that can be read. *)
Lemma serve_readable fs path content :
  read_text fs path = inr content ->
  _serve_html_with_reload str_exn ws_port fs path
  = (ok_response (octets (inject (script ws_port) content)), inr tt).
Proof.
  intros Hread.
  pose proof (inject_scalars _ _ (script_scalars ws_port)
                (read_text_scalars _ _ _ Hread)) as Hdoc.
  pose proof (encode_octets _ Hdoc 0) as Henc.
  change (encode (inject (script ws_port) content)
          = inr (octets (inject (script ws_port) content))) in Henc.
  unfold _serve_html_with_reload. rewrite Hread.
  unfold try_except, mbind, M_bind, bind, lift, call.
  rewrite Henc. reflexivity.
Qed.

(** For a file that cannot be read the only call is [send_error], whether it
    returns or raises. *)
Lemma serve_unreadable fs path e :
  read_text fs path = inl e ->
  (_serve_html_with_reload str_exn ws_port fs path).1
  = [send_error 500 (str_exn e)].
Proof.
  intros Hread. rewrite (read_failure_reaches_send_error _ _ _ _ _ Hread).
  unfold call_send_error. by destruct (latin_1_error _).
Qed.

(** X6: the body of an answer is valid UTF-8: decoded, it is the rewritten
    document. *)
Theorem served_body_decodes fs path content data :
  read_text fs path = inr content ->
  wfile_write data ∈ (_serve_html_with_reload str_exn ws_port fs path).1 ->
  decode data = inr (inject (script ws_port) content).
Proof.
  intros Hread. rewrite (serve_readable _ _ _ Hread). cbn [fst ok_response].
  intros Hin. repeat (apply elem_of_cons in Hin as [Hin|Hin]; [done|]).
  apply elem_of_cons in Hin as [[= ->]|Hin]; [|by apply elem_of_nil in Hin].
  apply decode_octets.
  apply inject_scalars; [apply script_scalars|by eapply read_text_scalars].
Qed.

(** X7: a file without carriage returns is served octet for octet: the body is
    the octets of the file, cut into pieces, with the octets of the snippet
    between the pieces. *)
Theorem served_body_preserves_bytes fs path data text :
  fs path = Regular data ->
  decode data = inr text ->
  Forall (fun b => b <> 13%N) data ->
  exists segs,
    data = concat segs
    /\ _serve_html_with_reload str_exn ws_port fs path
       = (ok_response (join (octets (script ws_port)) segs), inr tt).
Proof.
  intros Hfile Hdec Hcr.
  pose proof (octets_decode _ _ _ Hdec) as Hoct.
  assert (Hread : read_text fs path = inr text).
  { unfold read_text. rewrite Hfile, Hdec. f_equal.
    apply universal_newlines_id, octets_no_CR. by rewrite Hoct. }
  destruct (inject_segments (script ws_port) text) as (segs & Ht & Hj & _).
  exists (map octets segs). split.
  - by rewrite <- octets_concat, <- Ht.
  - rewrite (serve_readable _ _ _ Hread), Hj. by rewrite octets_join.
Qed.

(** X8: reading in text mode turns every line end into a line feed, so nothing
    the responder writes holds a carriage return, whatever the file holds. *)
Theorem served_body_has_no_CR fs request data :
  wfile_write data ∈ (do_GET str_exn translate_path ws_port fs request).1 ->
  Forall (fun b => b <> 13%N) data.
Proof.
  unfold do_GET.
  assert (Hsuper : wfile_write data ∈ (call super_do_GET).1 ->
                   Forall (fun b => b <> 13%N) data).
  { cbn. intros Hin. apply elem_of_cons in Hin as [?|Hin]; [done|].
    by apply elem_of_nil in Hin. }
  destruct (endswith (lit ".html") (translate_path request)
            || endswith (lit ".htm") (translate_path request)); [|done].
  destruct (exists_ fs (translate_path request)); [|done].
  destruct (read_text fs (translate_path request)) as [e|content] eqn:Hread.
  - rewrite (serve_unreadable _ _ _ Hread). cbn. intros Hin.
    apply elem_of_cons in Hin as [?|Hin]; [done|].
    by apply elem_of_nil in Hin.
  - rewrite (serve_readable _ _ _ Hread). cbn [fst ok_response].
    intros Hin. repeat (apply elem_of_cons in Hin as [Hin|Hin]; [done|]).
    apply elem_of_cons in Hin as [[= ->]|Hin]; [|by apply elem_of_nil in Hin].
    apply octets_keep_no_CR.
    assert (Hcontent : Forall (fun c => c <> 13%N) content).
    { unfold read_text in Hread.
      destruct (fs (translate_path request)) as [| |bytes]; [done|done|].
      destruct (decode bytes); [done|]. injection Hread as <-.
      apply universal_newlines_no_CR. }
    assert (Hscript : Forall (fun c => c <> 13%N) (script ws_port)).
    { eapply Forall_impl;
        [apply (script_Forall (fun c => negb (c =? 13)%N))|].
      - intros c Hc%is_int_char_spec. apply negb_true_iff, N.eqb_neq. lia.
      - vm_compute; reflexivity.
      - vm_compute; reflexivity.
      - vm_compute; reflexivity.
      - intros c Hc%negb_true_iff. by apply N.eqb_neq in Hc. }
    revert Hscript. generalize (script ws_port). intros snippet Hscript.
    unfold inject.
    destruct (contains _ content); [|destruct (contains _ content)].
    + apply replace_Forall; [|done]. apply Forall_app. split; [done|].
      by repeat constructor.
    + apply replace_Forall; [|done]. apply Forall_app. split; [done|].
      by repeat constructor.
    + by apply Forall_app.
Qed.

End Written.

(** The page of the samples: the 384 octets written decode to the 383
    characters of the rewritten page. *)
Lemma served_body_decodes_witness :
  decode (octets (inject (script (Some 8001%Z)) Samples.page_text))
  = inr (inject (script (Some 8001%Z)) Samples.page_text).
Proof.
  apply (served_body_decodes Samples.describe (Some 8001%Z) Samples.root
           (lit "index.html") Samples.page_text).
  - vm_compute; reflexivity.
  - rewrite (serve_readable _ _ _ _ Samples.page_text)
      by (vm_compute; reflexivity).
    cbn [fst ok_response]. do 4 apply list_elem_of_further.
    apply list_elem_of_here.
Defined.

(** The page of the samples is served with its 44 octets in place. *)
Lemma served_body_preserves_bytes_witness :
  exists segs,
    Samples.page_bytes = concat segs
    /\ _serve_html_with_reload Samples.describe (Some 8001%Z) Samples.root
         (lit "index.html")
       = (ok_response (join (octets (script (Some 8001%Z))) segs), inr tt).
Proof.
  apply (served_body_preserves_bytes Samples.describe (Some 8001%Z)
           Samples.root (lit "index.html") Samples.page_bytes
           Samples.page_text).
  - vm_compute; reflexivity.
  - vm_compute; reflexivity.
  - eapply Forall_impl;
      [apply (forallb_Forall (fun b => negb (b =? 13)%N)); vm_compute;
       reflexivity|].
    intros b Hb%negb_true_iff. by apply N.eqb_neq in Hb.
Defined.

(** A file with DOS line ends: the body written has line feeds only. *)
Lemma served_body_has_no_CR_witness :
  Forall (fun b => b <> 13%N)
    (octets (inject (script None) (lit "<p>a</p>" ++ [10%N] ++ lit "<p>b</p>"))).
Proof.
  apply (served_body_has_no_CR Samples.describe id None Samples.dos_root
           (lit "dos.html")).
  unfold do_GET.
  replace (endswith (lit ".html") (id (lit "dos.html"))
           || endswith (lit ".htm") (id (lit "dos.html"))) with true
    by (vm_compute; reflexivity).
  replace (exists_ Samples.dos_root (id (lit "dos.html"))) with true
    by (vm_compute; reflexivity).
  rewrite (serve_readable _ _ _ _
             (lit "<p>a</p>" ++ [10%N] ++ lit "<p>b</p>"))
    by (vm_compute; reflexivity).
  cbn [fst ok_response]. do 4 apply list_elem_of_further.
  apply list_elem_of_here.
Defined.

(** ** The registry and the timer over a whole run *)

(** Who is registered after an undisturbed pass. *)
Lemma notify_clients_undisturbed ok cl ws :
  ws ∈ pass_clients (_notify_clients ok [] cl) <-> ws ∈ cl /\ ok ws = true.
Proof.
  unfold _notify_clients. case_bool_decide as Hemp.
  - subst cl. cbn [pass_clients]. set_solver.
  - rewrite for_ws_undisturbed. cbn [pass_clients].
    rewrite elem_of_difference, elem_of_union, elem_of_list_to_set.
    rewrite list_elem_of_filter, elem_of_elements.
    destruct (ok ws); set_solver.
Qed.

Lemma pending_none (ts : list task) : Forall settled ts -> pending ts = [].
Proof.
  unfold pending, settled. induction 1 as [|k ts Hk Hts IH]; [done|].
  rewrite filter_cons, decide_False by congruence. done.
Qed.

Section Runs.

Variable send_ok : nat -> conn -> bool.

Implicit Types (w : world) (k : task) (ts : list task) (cl : gset conn)
  (steps : list step) (ws : conn).

Local Abbreviation run := (run send_ok).
Local Abbreviation do_step := (do_step send_ok).
Local Abbreviation run_due := (run_due send_ok).
Local Abbreviation calms := (Forall (fun s => calm s = true)).

Lemma run_due_tasks t ts : forall cl l,
  (run_due t ts cl l).1.1 = map (resumed t) ts.
Proof.
  induction ts as [|k ts IH]; intros cl l; cbn [run_due map]; [done|].
  unfold resumed at 1. destruct (live k && (wake k <=? t)).
  - match goal with |- context [run_due t ts ?c ?m] =>
      specialize (IH c m); destruct (run_due t ts c m) as [[??]?]
    end. cbn [fst] in *. by rewrite IH.
  - specialize (IH cl l). destruct (run_due t ts cl l) as [[??]?].
    cbn [fst] in *. by rewrite IH.
Qed.

Lemma resumed_live t k : live (resumed t k) = true -> resumed t k = k.
Proof.
  unfold resumed. destruct (live k && (wake k <=? t)); [|done].
  unfold live. cbn. by rewrite andb_false_r.
Qed.

Lemma run_due_clients t ts : forall cl l ws,
  (ws ∈ (run_due t ts cl l).1.2 -> ws ∈ cl)
  /\ (ws ∈ cl -> send_ok t ws = true -> ws ∈ (run_due t ts cl l).1.2).
Proof.
  induction ts as [|k ts IH]; intros cl l ws; cbn [run_due]; [done|].
  destruct (live k && (wake k <=? t)).
  - match goal with |- context [run_due t ts ?c ?m] =>
      specialize (IH c m ws); destruct (run_due t ts c m) as [[??]?]
    end. cbn [fst snd] in *. destruct IH as [IH1 IH2]. split.
    + intros Hin%IH1. by apply notify_clients_undisturbed in Hin as [? _].
    + intros Hin Hok. apply IH2; [|done].
      by apply notify_clients_undisturbed.
  - specialize (IH cl l ws). by destruct (run_due t ts cl l) as [[??]?].
Qed.

Lemma tame_step w s : tame w -> tame (do_step w s).
Proof.
  intros Htame. destruct s as [|event|ws|ws]; cbn [do_step]; try done.
  - pose proof (run_due_tasks (S (now w)) (tasks w) (clients w) (log w))
      as Hts.
    destruct (run_due (S (now w)) (tasks w) (clients w) (log w))
      as [[ts cl] l]. cbn [fst] in Hts. subst ts.
    intros i k Hik Hl. cbn [tasks debounce_timer] in *.
    rewrite list_lookup_fmap in Hik.
    destruct (tasks w !! i) as [k0|] eqn:Hk0; [|done].
    injection Hik as <-. apply (Htame i k0 Hk0).
    by rewrite <- (resumed_live _ _ Hl).
  - destruct (qualifying event) eqn:Hq.
    + rewrite dispatch_qualifying by done.
      destruct (trigger_rearms w Htame) as [Harmed _].
      by eapply armed_tame.
    + by rewrite dispatch_discarded.
Qed.

Lemma tame_run steps : forall w, tame w -> tame (run w steps).
Proof.
  induction steps as [|s steps IH]; intros w Htame; [done|].
  rewrite run_cons. by apply IH, tame_step.
Qed.

Lemma tame_pending w : tame w -> length (pending (tasks w)) <= 1.
Proof.
  unfold tame, pending. generalize (debounce_timer w) (tasks w).
  intros timer ts. revert timer.
  induction ts as [|k ts IH]; intros timer Htame; [cbn; lia|].
  rewrite filter_cons. destruct (decide (live k = true)) as [Hk|Hk].
  - assert (Hnone : filter (fun k => live k = true) ts = []).
    { apply pending_none, Forall_lookup. intros j kj Hj. unfold settled.
      destruct (live kj) eqn:Hlj; [|done].
      pose proof (Htame 0 k eq_refl Hk) as H0.
      pose proof (Htame (S j) kj Hj Hlj) as H1. congruence. }
    rewrite Hnone. cbn. lia.
  - apply (IH (pred <$> timer)). intros i ki Hi Hli.
    by rewrite (Htame (S i) ki Hi Hli).
Qed.

(** X9: however events, ticks, connections and closures follow each other, at
    most one reload is pending: the future [debounce_timer] holds. *)
Theorem one_pending_reload steps :
  length (pending (tasks (run initial steps))) <= 1
  /\ (forall i k, tasks (run initial steps) !! i = Some k ->
                  live k = true ->
                  debounce_timer (run initial steps) = Some i).
Proof.
  assert (Htame : tame (run initial steps)).
  { apply tame_run. intros i k Hik. done. }
  split; [by apply tame_pending|exact Htame].
Qed.






(** X14: the registry holds connections that connected, and no others. *)
Theorem registry_holds_connected_only steps ws :
  ws ∈ clients (run initial steps) -> Connect ws ∈ steps.
Proof.
  assert (Hgen : forall w, ws ∈ clients (run w steps) ->
                   ws ∈ clients w \/ Connect ws ∈ steps).
  { induction steps as [|s steps IH]; intros w Hin; [by left|].
    rewrite run_cons in Hin. destruct (IH _ Hin) as [Hw|Hs].
    - destruct s as [|event|ws'|ws']; cbn [Notifier.do_step] in Hw.
      + pose proof (run_due_clients (S (now w)) (tasks w) (clients w)
                      (log w) ws) as [Hsub _].
        destruct (run_due (S (now w)) (tasks w) (clients w) (log w))
          as [[??]?]. left. by apply Hsub.
      + left. unfold dispatch, on_modified, on_created in Hw.
        by repeat match goal with
           | H : context [match ?x with _ => _ end] |- _ => destruct x
           end.
      + cbn in Hw. apply elem_of_union in Hw as [->%elem_of_singleton|Hw];
          [right; apply list_elem_of_here|by left].
      + cbn in Hw. left. set_solver.
    - right. by apply list_elem_of_further. }
  intros Hin. destruct (Hgen initial Hin) as [Hemp|Hs]; [|done].
  cbn in Hemp. set_solver.
Qed.

End Runs.



(** Connection 2 connects, a save is broadcast, connection 1 comes and
    goes: connection 2 is registered, and it did connect. *)
Lemma registry_holds_connected_only_witness :
  Connect 2
  ∈ [Connect 2; Fs Samples.edit; Connect 1; Disconnect 1; Tick].
Proof.
  apply (registry_holds_connected_only Samples.flaky
           [Connect 2; Fs Samples.edit; Connect 1; Disconnect 1; Tick] 2).
  apply elem_of_elements.
  match goal with
  | |- _ ∈ ?l => assert (l = [2]) as -> by (vm_compute; reflexivity)
  end.
  apply list_elem_of_here.
Defined.

(** A broadcast, undisturbed, drops connection 1, whose send fails, and
    keeps connection 2. *)
Example flaky_client_dropped :
  elements
    (clients
       (run Samples.flaky (World 0 [] None {[1; 2]} [])
          (Fs Samples.edit :: replicate 100 Tick)))
  = [2].
Proof. vm_compute. reflexivity. Qed.

(** ** A peer closing during a pass *)

Section Closing.

Implicit Types (cl : gset conn) (ws : conn).

(** X16: a peer closing while the first send of a pass is awaited: the handler
    discards its connection, the iterator finds the set smaller and raises.
    One connection has been sent the signal, another member has not, and the
    connections whose send raised are not removed. *)
Theorem disconnect_aborts_broadcast send_ok cl ws' :
  1 < size cl -> ws' ∈ cl ->
  exists ws missed,
    ws ∈ cl /\ missed ∈ cl /\ missed <> ws
    /\ pass_outcome (_notify_clients send_ok [[discard ws']] cl)
       = RuntimeError
    /\ pass_sends (_notify_clients send_ok [[discard ws']] cl)
       = [sent_to send_ok ws]
    /\ pass_clients (_notify_clients send_ok [[discard ws']] cl)
       = cl ∖ {[ws']}.
Proof.
  intros Hsize Hmem. unfold _notify_clients.
  assert (Hne : cl <> ∅) by (intros ->; rewrite size_empty in Hsize; lia).
  rewrite bool_decide_eq_false_2 by done.
  pose proof (NoDup_elements cl) as Hnd.
  assert (Hlen : length (elements cl) = size cl) by done.
  destruct (elements cl) as [|ws [|missed rest]] eqn:Hel;
    [cbn in Hlen; lia|cbn in Hlen; lia|].
  exists ws, missed.
  assert (Hws : ws ∈ cl) by (apply elem_of_elements; rewrite Hel; set_solver).
  assert (Hm : missed ∈ cl) by (apply elem_of_elements; rewrite Hel; set_solver).
  assert (Hneq : missed <> ws).
  { intros ->. apply NoDup_cons in Hnd as [Hnotin _]. set_solver. }
  assert (Hless : (size (cl ∖ {[ws']}) =? size cl) = false).
  { apply Nat.eqb_neq. rewrite size_difference by set_solver.
    rewrite size_singleton. lia. }
  split_and!; try done;
    cbn [for_ws hd tl registry_run foldl fst snd registry_apply effective];
    rewrite Nat.eqb_refl; cbn [negb]; rewrite Hless; done.
Qed.

End Closing.

(** At the registry [{1, 2}], when the peer of connection 1 closes during
    the first send. *)
Lemma disconnect_aborts_broadcast_witness :
  exists ws missed,
    ws ∈ ({[1; 2]} : gset conn) /\ missed ∈ ({[1; 2]} : gset conn)
    /\ missed <> ws
    /\ pass_outcome (_notify_clients (Samples.flaky 0) [[discard 1]] {[1; 2]})
       = RuntimeError
    /\ pass_sends (_notify_clients (Samples.flaky 0) [[discard 1]] {[1; 2]})
       = [sent_to (Samples.flaky 0) ws]
    /\ pass_clients (_notify_clients (Samples.flaky 0) [[discard 1]] {[1; 2]})
       = {[1; 2]} ∖ {[1]}.
Proof.
  apply (disconnect_aborts_broadcast (Samples.flaky 0) {[1; 2]} 1).
  - vm_compute. lia.
  - set_solver.
Defined.

(** ** From a save to the browsers *)


Lemma pending_armed T (pre post : list task) :
  Forall settled pre -> Forall settled post ->
  pending (pre ++ Task T false false :: post) = [Task T false false].
Proof.
  intros Hpre Hpost. unfold pending. rewrite filter_app, filter_cons.
  fold (pending pre) (pending post).
  rewrite !pending_none by done. by rewrite decide_True.
Qed.

Section Delivery.

Variable send_ok : nat -> conn -> bool.

Implicit Types (w : world) (k : task) (ts : list task) (cl : gset conn)
  (steps : list step) (ws : conn).

Local Abbreviation run := (run send_ok).
Local Abbreviation do_step := (do_step send_ok).
Local Abbreviation run_due := (run_due send_ok).



(** The loop turns pending futures into broadcasts, one for one. *)
Lemma run_due_balance t ts : forall cl l,
  length (broadcasts (run_due t ts cl l).2)
  + length (pending (run_due t ts cl l).1.1)
  = length (broadcasts l) + length (pending ts).
Proof.
  induction ts as [|k ts IH]; intros cl l; cbn [run_due]; [done|].
  unfold pending in *. rewrite filter_cons.
  destruct (live k) eqn:Hl; cbn [andb].
  - destruct (wake k <=? t).
    + match goal with |- context [run_due t ts ?c ?m] =>
        specialize (IH c m); destruct (run_due t ts c m) as [[??]?]
      end. cbn [fst snd] in *.
      rewrite filter_cons, decide_False
        by (unfold live; cbn; rewrite andb_false_r; done).
      rewrite decide_True by done. rewrite IH.
      rewrite broadcasts_app, broadcasts_woke, broadcasts_sent.
      rewrite length_app. cbn [length]. lia.
    + specialize (IH cl l). destruct (run_due t ts cl l) as [[??]?].
      cbn [fst snd] in *. rewrite filter_cons, !decide_True by done.
      cbn [length]. lia.
  - specialize (IH cl l). destruct (run_due t ts cl l) as [[??]?].
    cbn [fst snd] in *. rewrite filter_cons, !decide_False by congruence.
    done.
Qed.

Lemma broadcasts_bounded steps : forall w,
  tame w ->
  length (broadcasts (log (run w steps)))
  + length (pending (tasks (run w steps)))
  <= length (broadcasts (log w)) + length (pending (tasks w))
     + deliveries steps.
Proof.
  induction steps as [|s steps IH]; intros w Htame; [cbn; lia|].
  rewrite run_cons.
  specialize (IH (do_step w s) (tame_step send_ok w s Htame)).
  unfold deliveries in *. rewrite filter_cons.
  destruct s as [|event|ws|ws]; cbn [calm Notifier.do_step] in *.
  - rewrite decide_False by done.
    pose proof (run_due_balance (S (now w)) (tasks w) (clients w) (log w))
      as Hbal.
    destruct (run_due (S (now w)) (tasks w) (clients w) (log w))
      as [[??]?]. cbn [fst snd log tasks] in *. lia.
  - destruct (qualifying event) eqn:Hq; cbn [negb].
    + rewrite decide_True by done. cbn [length].
      rewrite dispatch_qualifying in IH |- * by done.
      destruct (trigger_rearms w Htame)
        as ((_ & pre & post & Hts & _ & Hpre & Hpost) & _ & Hlog & _).
      rewrite Hts, pending_armed, Hlog in IH by done. cbn [length] in IH.
      lia.
    + rewrite decide_False by done.
      rewrite dispatch_discarded in IH |- * by done. lia.
  - rewrite decide_False by done. cbn [log tasks] in IH. lia.
  - rewrite decide_False by done. cbn [log tasks] in IH. lia.
Qed.

(** X13: there are never more broadcasts than qualifying events: every broadcast
    answers an event, and no event is answered twice. *)
Theorem broadcasts_answer_events steps :
  length (broadcasts (log (run initial steps))) <= deliveries steps.
Proof.
  pose proof (broadcasts_bounded steps initial) as H.
  cbn [initial log tasks] in H.
  assert (Htame : tame initial) by (intros i k Hik; done).
  specialize (H Htame). cbn in H. lia.
Qed.

End Delivery.

